(** * Web3 sign-in message checker: fingerprints and risk assessment

    Shallow embedding of [shared/modules/message-checker.js]
    ([generateFingerprint], [compareFingerprint], [createMessageInfo],
    [checkMessageBeforeSign], the three-argument revision) together with
    the store layout documented in [app/scripts/controllers/web3-auth.js].

    Modelling conventions.
    - A JavaScript string is a [string]: every [ascii] stands for one
      UTF-16 code unit in the range 0..255 (the Latin-1 block).  The
      built-ins [String.prototype.replace], [split], [toLowerCase] and
      [indexOf] are modelled on that range.
    - A JavaScript array is a [list]; [push] appends at the end and [pop]
      removes the last element.
    - A plain JavaScript object used as a dictionary is an association
      list holding its own enumerable properties in [for ... in] order.
      [get] looks a key up among the own properties; the property read
      [o[k]] is [readProperty], which finds an own property first and
      then what every object inherits from [Object.prototype].
    - [throw] and property access on [undefined] are results in the
      [result] monad; [Date.now()] is a parameter. *)

From Stdlib Require Import ZArith Ascii String.
From stdpp Require Import base list strings.

(** ** Exceptions *)

Inductive Error : Type :=
  | EmptyInput        (* new Error('Message list is empty!') *)
  | NotStringOrArray  (* new Error('Message must be a string or a list of words!') *)
  | LengthMismatch    (* new Error('Message lengths are not equal!') *)
  | TypeError.        (* property read on undefined *)

Inductive result (A : Type) : Type :=
  | Ok (a : A)
  | Throw (e : Error).

Arguments Ok {A} a.
Arguments Throw {A} e.

Global Instance result_ret : MRet result := fun A a => Ok a.

Global Instance result_bind : MBind result := fun A B k r =>
  match r with
  | Ok a => k a
  | Throw e => Throw e
  end.

(** [try { body } catch (error) { handler }] *)
Definition try_catch {A : Type} (body : result A) (handler : Error → result A) : result A :=
  match body with
  | Ok a => Ok a
  | Throw e => handler e
  end.

(** ** Strings *)

Definition code (c : ascii) : nat := nat_of_ascii c.

Definition in_range (lo hi : nat) (c : ascii) : bool :=
  (Nat.leb lo (code c)) && (Nat.leb (code c) hi).

(** The character class [[a-fA-F0-9]]. *)
Definition isHexDigit (c : ascii) : bool :=
  in_range 97 102 c || in_range 65 70 c || in_range 48 57 c.

(** The character class [\s] on code units below 256:
    TAB, LF, VT, FF, CR, SPACE and NO-BREAK SPACE. *)
Definition isWhiteSpace (c : ascii) : bool :=
  in_range 9 13 c || Nat.eqb (code c) 32 || Nat.eqb (code c) 160.

(** [n] hexadecimal digits start the string: [[a-fA-F0-9]{n}]. *)
Fixpoint hexRun (n : nat) (s : string) : bool :=
  match n with
  | O => true
  | S n' =>
      match s with
      | String c s' => isHexDigit c && hexRun n' s'
      | EmptyString => false
      end
  end.

(** The pattern [/0x[a-fA-F0-9]{40}/] matches at the head of the string. *)
Definition matchAddress (s : string) : bool :=
  match s with
  | String "0" (String "x" s') => hexRun 40 s'
  | _ => false
  end.

(** [s.replace(/0x[a-fA-F0-9]{40}/g, '_address_')]: the matches are found
    from left to right, each search resuming after the previous match.
    [skip] counts the code units of the current match still to be dropped. *)
Fixpoint replaceAddress_from (skip : nat) (s : string) : string :=
  match s with
  | EmptyString => EmptyString
  | String c s' =>
      match skip with
      | S k => replaceAddress_from k s'
      | O =>
          if matchAddress s
          then "_address_" +:+ replaceAddress_from 41 s'
          else String c (replaceAddress_from 0 s')
      end
  end.

Definition replaceAddress (s : string) : string := replaceAddress_from 0 s.

(** [s.split(/(\s+)/)]: the separators are the maximal whitespace runs and,
    because of the capturing group, they are kept in the output between the
    pieces they separate.  [inSpace] tells whether the token [cur] being
    accumulated is a separator; a separator that ends the string is
    followed by a last, empty piece. *)
Fixpoint split_from (inSpace : bool) (cur : string) (s : string) : list string :=
  match s with
  | EmptyString => if inSpace then [cur; EmptyString] else [cur]
  | String c s' =>
      if Bool.eqb (isWhiteSpace c) inSpace
      then split_from inSpace (cur +:+ String c EmptyString) s'
      else cur :: split_from (isWhiteSpace c) (String c EmptyString) s'
  end.

Definition splitWhitespace (s : string) : list string :=
  split_from false EmptyString s.

(** [s.toLowerCase()] on code units below 256: A-Z and the capital letters
    of the Latin-1 supplement (U+00C0-U+00DE without U+00D7) move up by 32. *)
Definition lowerChar (c : ascii) : ascii :=
  if in_range 65 90 c || (in_range 192 222 c && negb (Nat.eqb (code c) 215))
  then ascii_of_nat (code c + 32)
  else c.

Fixpoint toLowerCase (s : string) : string :=
  match s with
  | EmptyString => EmptyString
  | String c s' => String (lowerChar c) (toLowerCase s')
  end.

(** [s.indexOf(pat)]: the first position at which [pat] occurs, or -1. *)
Fixpoint indexOf_from (i : Z) (pat s : string) : Z :=
  if String.prefix pat s then i
  else
    match s with
    | EmptyString => (-1)%Z
    | String _ s' => indexOf_from (i + 1)%Z pat s'
    end.

Definition indexOf (s pat : string) : Z := indexOf_from 0%Z pat s.

(** [l.join(sep)] *)
Definition join (sep : string) (l : list string) : string := String.concat sep l.

(** ** Arrays *)

Definition push {A : Type} (l : list A) (x : A) : list A := l ++ [x].
Definition pop {A : Type} (l : list A) : list A := removelast l.

(** [l.some(p)] and [l.every(p)] *)
Definition some {A : Type} (p : A → bool) (l : list A) : bool := existsb p l.
Definition every {A : Type} (p : A → bool) (l : list A) : bool := forallb p l.

(** ** Objects used as dictionaries *)

Definition JSObject (V : Type) : Type := list (string * V).

(** The own property named [k]. *)
Fixpoint get {V : Type} (o : JSObject V) (k : string) : option V :=
  match o with
  | [] => None
  | (k', v) :: o' => if String.eqb k' k then Some v else get o' k
  end.

(** The keys visited by [for (let d in o)]. *)
Definition keys {V : Type} (o : JSObject V) : list string := map fst o.

(** A read [o[k]] of a key [k] that a [for ... in] over [o] produced, the
    value being used at once as an array: an own property. *)
Definition getDefined {V : Type} (o : JSObject V) (k : string) : result V :=
  match get o k with
  | Some v => Ok v
  | None => Throw TypeError
  end.

(** The property names a plain object inherits from [Object.prototype].
    What is read under them is a function, and under [__proto__] the
    prototype object: a value that is not [undefined], not a string and
    not an array, and that has no property [localFingerprints] or
    [localMessages]. *)
Definition objectPrototypeKeys : list string :=
  ["constructor"; "__defineGetter__"; "__defineSetter__"; "hasOwnProperty";
   "__lookupGetter__"; "__lookupSetter__"; "isPrototypeOf"; "propertyIsEnumerable";
   "toString"; "valueOf"; "__proto__"; "toLocaleString"].

Definition inheritedKey (k : string) : bool :=
  existsb (String.eqb k) objectPrototypeKeys.

(** What a property read finds. *)
Inductive Property (V : Type) : Type :=
  | Own (v : V)
  | Inherited
  | Undefined.

Arguments Own {V} v.
Arguments Inherited {V}.
Arguments Undefined {V}.

(** [o[k]] *)
Definition readProperty {V : Type} (o : JSObject V) (k : string) : Property V :=
  match get o k with
  | Some v => Own v
  | None => if inheritedKey k then Inherited else Undefined
  end.

(** ** FingerprintEngine *)

Definition Fingerprint : Type := list string.

Definition NONCE : string := "_nonce_".

(** An element of [messageList]: a string, an array of words, or a value
    that is neither. *)
Inductive Message : Type :=
  | Str (s : string)
  | Arr (words : Fingerprint)
  | Other.

(** The callback of [messageList.map].  A [map] whose callback may throw
    is [mapM] in the [result] monad: the callback runs on the elements
    from left to right and the first exception escapes. *)
Definition toWords (message : Message) : result (list string) :=
  match message with
  | Str s =>
      let message := replaceAddress s in
      let words := splitWhitespace message in
      Ok words
  | Arr words => Ok words
  | Other => Throw NotStringOrArray
  end.

(** [words[i] == word] for a string [word]; an index out of range reads
    [undefined], which is equal to no string. *)
Definition wordAt_eq (i : nat) (word : string) (words : list string) : bool :=
  match words !! i with
  | Some w => String.eqb w word
  | None => false
  end.

Definition generateFingerprint (messageList : list Message) : result Fingerprint :=
  if Nat.eqb (length messageList) 0 then Throw EmptyInput
  else
    messages_words ← mapM toWords messageList;
    let first := hd [] messages_words in
    if Nat.eqb (length messages_words) 1 then Ok first
    else if some (fun words => negb (Nat.eqb (length words) (length first))) messages_words
    then Throw LengthMismatch
    else
      Ok (imap
            (fun i word =>
               let isSame := every (wordAt_eq i word) messages_words in
               if isSame then word else NONCE)
            first).

Fixpoint compareWords (f1 f2 : Fingerprint) : bool :=
  match f1, f2 with
  | word1 :: r1, word2 :: r2 =>
      if String.eqb word1 NONCE || String.eqb word2 NONCE then compareWords r1 r2
      else if negb (String.eqb word1 word2) then false
      else compareWords r1 r2
  | _, _ => true
  end.

Definition compareFingerprint (f1 f2 : Fingerprint) : bool :=
  if negb (Nat.eqb (length f1) (length f2)) then false
  else compareWords f1 f2.

(** ** Store layout ([web3Storage] of the Web3AuthController) *)

(** [{address, message, createdAt, domain, web3Name, fingerprint}] *)
Record MessageInfo : Type := {
  address : string;
  message : string;
  createdAt : Z;
  domain : string;
  web3Name : string;
  fingerprint : Fingerprint
}.

(** [signedMessages[address]]: [{localFingerprints, localMessages}];
    [localMessages] is keyed by [createdAt]. *)
Record AddressHistory : Type := {
  localFingerprints : JSObject Fingerprint;
  localMessages : list (Z * MessageInfo)
}.

Definition SignedMessages : Type := JSObject AddressHistory.
Definition GlobalFingerprints : Type := JSObject Fingerprint.

(** ** MessageInfoFactory *)

(** The request [msg]: [{address, message, domain, web3Name}]. *)
Record Request : Type := {
  req_address : string;
  req_message : string;
  req_domain : string;
  req_web3Name : string
}.

(** [now] is the value read from [Date.now()]. *)
Definition createMessageInfo (now : Z) (msg : Request)
    (globalFingerprints : GlobalFingerprints) : result MessageInfo :=
  let messageInfo (fp : Fingerprint) :=
    {| address := req_address msg;
       message := req_message msg;
       createdAt := now;
       domain := req_domain msg;
       web3Name := req_web3Name msg;
       fingerprint := fp |} in
  let messageList := [Str (req_message msg)] in
  let messageList :=
    match readProperty globalFingerprints (req_domain msg) with
    | Own fp => push messageList (Arr fp)
    | Inherited => push messageList Other
    | Undefined => messageList
    end in
  fp ← try_catch (generateFingerprint messageList)
         (fun error => generateFingerprint [Str (req_message msg)]);
  Ok (messageInfo fp).

(** ** RiskAssessor *)

Record Risk : Type := {
  severity : string;
  title : string;
  body : string
}.

Definition newline : string := String (ascii_of_nat 10) EmptyString.

Definition infoPhishing : Risk :=
  {| severity := "info";
     title := "Phishing Attack";
     body := "This website has the risk of phishing attack. The message you signed does not include domain name. Please check this website's domain name." |}.

Definition warningPhishing (similarDomains : list string) : Risk :=
  {| severity := "warning";
     title := "Phishing Attack";
     body := "This message is the same as other websites. This website can use your signature to log in to other websites!"
             +:+ newline +:+ " " +:+ join ", " similarDomains |}.

Definition dangerPhishing (domain : string) (victim_domains : list string) : Risk :=
  {| severity := "danger";
     title := "Phishing Attack";
     body := "This is a phishing website." +:+ newline
             +:+ " This website's domain is " +:+ domain
             +:+ ". You had signed similar messages on " +:+ join ", " victim_domains
             +:+ ". Please check this website's domain name." |}.

Definition infoReplay : Risk :=
  {| severity := "info";
     title := "Replay Attack";
     body := "This message has the risk of replay attack, because it does not include nonce." |}.

(** The body shared by the two [for (let d in table)] loops: the own domain
    is skipped, [f2 = table[d]] is compared with [f1] and the matching
    domains are pushed on [found]. *)
Fixpoint scanDomains (table : JSObject Fingerprint) (domain : string) (f1 : Fingerprint)
    (ds : list string) (found : list string) : result (list string) :=
  match ds with
  | [] => Ok found
  | d :: ds' =>
      if String.eqb d domain then scanDomains table domain f1 ds' found
      else
        f2 ← getDefined table d;
        scanDomains table domain f1 ds'
          (if compareFingerprint f1 f2 then push found d else found)
  end.

Definition matchingDomains (table : JSObject Fingerprint) (domain : string)
    (f1 : Fingerprint) : result (list string) :=
  scanDomains table domain f1 (keys table) [].

Definition isNonce (item : string) : bool := String.eqb item NONCE.

Definition checkMessageBeforeSign (messageInfo : MessageInfo)
    (signedMessages : SignedMessages) (globalFingerprints : GlobalFingerprints)
    : result (list Risk) :=
  let address := address messageInfo in
  let message := message messageInfo in
  let domain := domain messageInfo in
  let fingerprint := fingerprint messageInfo in
  let Risks : list Risk := [] in
  (* Info: Phishing Attack *)
  let domainInMsg := negb (Z.eqb (indexOf (toLowerCase message) (toLowerCase domain)) (-1)) in
  let Risks := if negb domainInMsg then push Risks infoPhishing else Risks in
  (* Warning: Phishing Attack *)
  similarDomains ← matchingDomains globalFingerprints domain fingerprint;
  let Risks :=
    if Nat.ltb 0 (length similarDomains) then
      let Risks := if Nat.ltb 0 (length Risks) then pop Risks else Risks in
      push Risks (warningPhishing similarDomains)
    else Risks in
  (* Danger: Phishing Attack *)
  Risks ←
    match readProperty signedMessages address with
    | Own history =>
        let f1 := fingerprint in
        victim_domains ← matchingDomains (localFingerprints history) domain f1;
        if Nat.ltb 0 (length victim_domains) then
          let Risks := if Nat.ltb 0 (length Risks) then pop Risks else Risks in
          Ok (push Risks (dangerPhishing domain victim_domains))
        else Ok Risks
    | Inherited =>
        (* localFingerprints is undefined: the loop visits nothing *)
        Ok Risks
    | Undefined => Ok Risks
    end;
  (* Info: Replay Attack *)
  known ←
    match readProperty signedMessages address with
    | Own history =>
        match readProperty (localFingerprints history) domain with
        | Undefined => Ok false
        | _ => Ok true
        end
    | Inherited =>
        (* localFingerprints is undefined and is read at [domain] *)
        Throw TypeError
    | Undefined => Ok false
    end;
  nonceInMsg ←
    (if (known : bool) then Ok (some isNonce fingerprint)
     else
       match similarDomains with
       | d0 :: _ =>
           similarFingerprint ← getDefined globalFingerprints d0;
           Ok (some isNonce similarFingerprint)
       | [] => Ok false
       end);
  let Risks := if negb nonceInMsg then push Risks infoReplay else Risks in
  Ok Risks.

(** ** Specification-side definitions *)

(** Every code unit of the string satisfies [p]. *)
Fixpoint allChars (p : ascii → bool) (s : string) : bool :=
  match s with
  | EmptyString => true
  | String c s' => p c && allChars p s'
  end.

(** A piece between separators holds no whitespace; a separator is a
    non-empty whitespace run. *)
Definition isPiece (w : string) : bool := allChars (fun c => negb (isWhiteSpace c)) w.

Definition isSeparator (w : string) : bool :=
  match w with
  | EmptyString => false
  | String _ _ => allChars isWhiteSpace w
  end.

Definition nonEmpty (w : string) : bool :=
  match w with
  | EmptyString => false
  | String _ _ => true
  end.

(** The shape of a split: a piece, then separators and pieces in turn.
    [tailSplit] describes what follows a piece; a piece that stands between
    two separators is not empty, so that every separator is a whole
    whitespace run. *)
Fixpoint tailSplit (rest : list string) : bool :=
  match rest with
  | [] => true
  | sep :: rest' =>
      isSeparator sep &&
      match rest' with
      | [] => false
      | p :: rest'' =>
          isPiece p && (nonEmpty p || bool_decide (rest'' = [])) && tailSplit rest''
      end
  end.

Definition wellSplit (ts : list string) : bool :=
  match ts with
  | [] => false
  | p :: rest => isPiece p && tailSplit rest
  end.

(** No suffix of the string starts with a match. *)
Fixpoint noAddress (s : string) : bool :=
  negb (matchAddress s) &&
  match s with
  | EmptyString => true
  | String _ s' => noAddress s'
  end.

(** All token sequences have one length. *)
Definition sameLength (wss : list (list string)) : Prop :=
  ∀ ws1 ws2, ws1 ∈ wss → ws2 ∈ wss → length ws1 = length ws2.

(** Replace the words of [b] at the positions selected by [positions]
    with [_nonce_]. *)
Definition maskNonce (positions : nat → bool) (b : Fingerprint) : Fingerprint :=
  imap (fun i word => if positions i then NONCE else word) b.

(** [d] is a domain other than [domain] whose fingerprint in [table]
    matches [f1]. *)
Definition matchesOther (table : JSObject Fingerprint) (domain : string)
    (f1 : Fingerprint) (d : string) : bool :=
  negb (String.eqb d domain) &&
  match get table d with
  | Some f2 => compareFingerprint f1 f2
  | None => false
  end.

(** The other domains of [table] that match, in iteration order. *)
Definition otherDomains (table : JSObject Fingerprint) (domain : string)
    (f1 : Fingerprint) : list string :=
  List.filter (matchesOther table domain f1) (keys table).

(** Some other domain's fingerprint in [table] matches [f1]. *)
Definition someOtherMatches (table : JSObject Fingerprint) (domain : string)
    (f1 : Fingerprint) : bool :=
  existsb (matchesOther table domain f1) (keys table).

(** [pat] occurs in [s]. *)
Definition Occurs (pat s : string) : Prop :=
  ∃ pre post, s = pre +:+ pat +:+ post.

(** The domain occurs in the message text, letter case ignored. *)
Definition domainInMessage (messageInfo : MessageInfo) : bool :=
  negb (Z.eqb (indexOf (toLowerCase (message messageInfo))
                       (toLowerCase (domain messageInfo))) (-1)).

(** The victims of the known-victim check: empty without local history. *)
Definition victimDomains (messageInfo : MessageInfo) (signedMessages : SignedMessages)
    : list string :=
  match get signedMessages (address messageInfo) with
  | Some history =>
      otherDomains (localFingerprints history) (domain messageInfo) (fingerprint messageInfo)
  | None => []
  end.

(** The trigger of the danger finding: the signer has local history and
    some other domain's local fingerprint matches. *)
Definition dangerTrigger (messageInfo : MessageInfo) (signedMessages : SignedMessages) : bool :=
  match get signedMessages (address messageInfo) with
  | Some history =>
      someOtherMatches (localFingerprints history) (domain messageInfo)
        (fingerprint messageInfo)
  | None => false
  end.

(** The trigger of the warning finding. *)
Definition warningTrigger (messageInfo : MessageInfo)
    (globalFingerprints : GlobalFingerprints) : bool :=
  someOtherMatches globalFingerprints (domain messageInfo) (fingerprint messageInfo).

(** The severity of the phishing finding: the highest one whose trigger holds. *)
Definition phishingSeverity (messageInfo : MessageInfo) (signedMessages : SignedMessages)
    (globalFingerprints : GlobalFingerprints) : option string :=
  if dangerTrigger messageInfo signedMessages then Some "danger"
  else if warningTrigger messageInfo globalFingerprints then Some "warning"
  else if negb (domainInMessage messageInfo) then Some "info"
  else None.

(** The phishing finding that survives. *)
Definition phishingFinding (messageInfo : MessageInfo) (signedMessages : SignedMessages)
    (globalFingerprints : GlobalFingerprints) : list Risk :=
  if dangerTrigger messageInfo signedMessages
  then [dangerPhishing (domain messageInfo) (victimDomains messageInfo signedMessages)]
  else if warningTrigger messageInfo globalFingerprints
  then [warningPhishing
          (otherDomains globalFingerprints (domain messageInfo) (fingerprint messageInfo))]
  else if negb (domainInMessage messageInfo) then [infoPhishing]
  else [].

(** The findings of a result list titled 'Phishing Attack'. *)
Definition phishingOf (risks : list Risk) : list Risk :=
  List.filter (fun r => String.eqb (title r) "Phishing Attack") risks.

(** The signer has a local fingerprint entry for this very domain. *)
Definition hasLocalEntry (signedMessages : SignedMessages) (address domain : string) : bool :=
  match get signedMessages address with
  | Some history =>
      match get (localFingerprints history) domain with
      | Some _ => true
      | None => false
      end
  | None => false
  end.

(** The first other domain, in iteration order, whose global fingerprint
    matches. *)
Definition firstMatchingDomain (globalFingerprints : GlobalFingerprints)
    (domain : string) (f1 : Fingerprint) : option string :=
  List.find (matchesOther globalFingerprints domain f1) (keys globalFingerprints).

Definition containsNonce (f : Fingerprint) : bool := bool_decide (NONCE ∈ f).

(** [nonceInMsg] as the replay check is described. *)
Definition nonceInMsg_spec (messageInfo : MessageInfo) (signedMessages : SignedMessages)
    (globalFingerprints : GlobalFingerprints) : bool :=
  if hasLocalEntry signedMessages (address messageInfo) (domain messageInfo)
  then containsNonce (fingerprint messageInfo)
  else
    match firstMatchingDomain globalFingerprints (domain messageInfo)
            (fingerprint messageInfo) with
    | Some d =>
        match get globalFingerprints d with
        | Some f => containsNonce f
        | None => false
        end
    | None => false
    end.

(** The replay finding. *)
Definition replayFinding (messageInfo : MessageInfo) (signedMessages : SignedMessages)
    (globalFingerprints : GlobalFingerprints) : list Risk :=
  if nonceInMsg_spec messageInfo signedMessages globalFingerprints then [] else [infoReplay].

(** ** Specification-side definitions for the further properties *)

(** Two words agree when one of them is the placeholder or they are equal. *)
Definition wordsAgree (word1 word2 : string) : Prop :=
  word1 = NONCE ∨ word2 = NONCE ∨ word1 = word2.

(** The fingerprint inferred from the word lists of the inputs. *)
Definition inferred (messages_words : list (list string)) : result Fingerprint :=
  match messages_words with
  | [] => Throw EmptyInput
  | [words] => Ok words
  | first :: _ =>
      if some (fun words => negb (Nat.eqb (length words) (length first))) messages_words
      then Throw LengthMismatch
      else Ok (imap (fun i word =>
                       if every (wordAt_eq i word) messages_words then word else NONCE)
                    first)
  end.

(** The words of an input that is a string or an array. *)
Definition wordsOf (message : Message) : list string :=
  match message with
  | Str s => splitWhitespace (replaceAddress s)
  | Arr words => words
  | Other => []
  end.

Definition isOther (message : Message) : bool :=
  match message with
  | Other => true
  | _ => false
  end.

(** The call throws: the signer's address names a property that
    [signedMessages] inherits and does not own. *)
Definition addressInherited (signedMessages : SignedMessages) (address : string) : bool :=
  match readProperty signedMessages address with
  | Inherited => true
  | _ => false
  end.

(** The test [signedMessages[address] != undefined &&
    signedMessages[address].localFingerprints[domain] != undefined] for an
    own history. *)
Definition localRead (signedMessages : SignedMessages) (address domain : string) : bool :=
  match get signedMessages address with
  | Some history =>
      match readProperty (localFingerprints history) domain with
      | Undefined => false
      | _ => true
      end
  | None => false
  end.

(** [nonceInMsg] as the code computes it. *)
Definition nonceInMsg_read (messageInfo : MessageInfo) (signedMessages : SignedMessages)
    (globalFingerprints : GlobalFingerprints) : bool :=
  if localRead signedMessages (address messageInfo) (domain messageInfo)
  then containsNonce (fingerprint messageInfo)
  else
    match firstMatchingDomain globalFingerprints (domain messageInfo)
            (fingerprint messageInfo) with
    | Some d =>
        match get globalFingerprints d with
        | Some f => containsNonce f
        | None => false
        end
    | None => false
    end.

(** The replay finding the code appends. *)
Definition replayAppended (messageInfo : MessageInfo) (signedMessages : SignedMessages)
    (globalFingerprints : GlobalFingerprints) : list Risk :=
  if nonceInMsg_read messageInfo signedMessages globalFingerprints then [] else [infoReplay].

(** An address as the pattern describes it: [0x], then 40 hexadecimal
    digits. *)
Definition isAddress (addr : string) : Prop :=
  ∃ digits,
    addr = String "0" (String "x" digits) ∧
    String.length digits = 40 ∧
    allChars isHexDigit digits = true.

Definition startsWithAddress (s : string) : Prop :=
  ∃ addr rest, s = addr +:+ rest ∧ isAddress addr.

(** The text with every address, found from left to right, replaced by
    [_address_]: where an address starts, it is replaced and the search
    goes on behind it; elsewhere the code unit is kept. *)
Inductive Replaced : string → string → Prop :=
  | Replaced_end : Replaced EmptyString EmptyString
  | Replaced_match (addr rest r : string) :
      isAddress addr →
      Replaced rest r →
      Replaced (addr +:+ rest) ("_address_" +:+ r)
  | Replaced_keep (c : ascii) (s r : string) :
      ¬ startsWithAddress (String c s) →
      Replaced s r →
      Replaced (String c s) (String c r).

(** ** Property assignment *)

(** The value of a decimal digit. *)
Definition digitValue (c : ascii) : option N :=
  if in_range 48 57 c then Some (N.of_nat (code c - 48)) else None.

Fixpoint parseDigits (acc : N) (s : string) : option N :=
  match s with
  | EmptyString => Some acc
  | String c s' =>
      match digitValue c with
      | Some d => parseDigits (10 * acc + d) s'
      | None => None
      end
  end.

(** A property key is an array index when it is the canonical decimal
    numeral of an integer from 0 to 2^32 - 2.  The own keys of an object are
    enumerated with the array indices first, in ascending order, and the
    other keys behind them in the order of their creation. *)
Definition arrayIndex (k : string) : option N :=
  match k with
  | EmptyString => None
  | String c rest =>
      if Ascii.eqb c "0" && nonEmpty rest then None
      else
        match parseDigits 0 k with
        | Some n => if (n <=? 4294967294)%N then Some n else None
        | None => None
        end
  end.

(** The key under which a number is stored, as far as the enumeration
    order goes: [createdAt] is an integer. *)
Definition numberIndex (n : Z) : option N :=
  if (0 <=? n)%Z && (n <=? 4294967294)%Z then Some (Z.to_N n) else None.

Section Assignment.
Context {K V : Type} (eqb : K → K → bool) (index : K → option N).

(** [o[k]] *)
Fixpoint lookup_by (o : list (K * V)) (k : K) : option V :=
  match o with
  | [] => None
  | (k', v) :: o' => if eqb k' k then Some v else lookup_by o' k
  end.

(** The value of an existing property changes in place. *)
Fixpoint replaceValue (o : list (K * V)) (k : K) (v : V) : list (K * V) :=
  match o with
  | [] => []
  | (k', v') :: o' =>
      if eqb k' k then (k', v) :: o' else (k', v') :: replaceValue o' k v
  end.

(** A new array index [n] goes before the first key that is a larger
    index or no index at all. *)
Fixpoint insertIndex (n : N) (k : K) (v : V) (o : list (K * V)) : list (K * V) :=
  match o with
  | [] => [(k, v)]
  | (k', v') :: o' =>
      match index k' with
      | Some n' =>
          if (n' <? n)%N then (k', v') :: insertIndex n k v o' else (k, v) :: o
      | None => (k, v) :: o
      end
  end.

(** [o[k] = v] *)
Definition assign (o : list (K * V)) (k : K) (v : V) : list (K * V) :=
  match lookup_by o k with
  | Some _ => replaceValue o k v
  | None =>
      match index k with
      | Some n => insertIndex n k v o
      | None => o ++ [(k, v)]
      end
  end.
End Assignment.

(** [o[k] = v] on an object with string keys: the assignment creates or
    updates an own property, also under a name the object inherits a value
    for.  The key [__proto__] is the exception: on an object without an own
    property of that name the assignment replaces the prototype of [o] by
    [v] and adds no own property.  The list records [v] under that key all
    the same, which is what the read [o["__proto__"]] gives afterwards; the
    enumeration of [o] and the reads of its other keys are those of the
    list only while no assignment was of that kind, so that the properties
    of the store that speak of the enumeration or of other keys are stated
    for domains other than [__proto__]. *)
Definition setProperty {V : Type} (o : JSObject V) (k : string) (v : V) : JSObject V :=
  assign String.eqb arrayIndex o k v.

(** [o[n] = v] for a number [n]. *)
Definition setNumbered {V : Type} (o : list (Z * V)) (n : Z) (v : V) : list (Z * V) :=
  assign Z.eqb numberIndex o n v.

Definition getNumbered {V : Type} (o : list (Z * V)) (n : Z) : option V :=
  lookup_by Z.eqb o n.

(** ** Web3AuthController *)

(** [web3Storage]: [{globalFingerprints, signedMessages}] *)
Record Web3Storage : Type := {
  globalFingerprints : GlobalFingerprints;
  signedMessages : SignedMessages
}.

(** The state the constructor installs: the empty storage, unless
    [opts.initState] brings a [web3Storage] of its own. *)
Definition initialStorage (initState : option Web3Storage) : Web3Storage :=
  match initState with
  | Some web3Storage => web3Storage
  | None => {| globalFingerprints := []; signedMessages := [] |}
  end.

(** [signedMessages[address]] where one of its tables is assigned to next:
    an inherited value has no such table, and assigning to a property of
    [undefined] throws. *)
Definition getHistory (signedMessages : SignedMessages) (address : string)
    : result AddressHistory :=
  match readProperty signedMessages address with
  | Own history => Ok history
  | Inherited => Throw TypeError
  | Undefined => Throw TypeError
  end.

Definition setMessageInfo (web3Storage : Web3Storage) (messageInfo : MessageInfo)
    : result Web3Storage :=
  let address := address messageInfo in
  let createdAt := createdAt messageInfo in
  let domain := domain messageInfo in
  let fingerprint := fingerprint messageInfo in
  let signedMessages :=
    match readProperty (signedMessages web3Storage) address with
    | Undefined =>
        setProperty (signedMessages web3Storage) address
          {| localFingerprints := []; localMessages := [] |}
    | _ => signedMessages web3Storage
    end in
  (* signedMessages[address].localMessages[createdAt] = messageInfo *)
  history ← getHistory signedMessages address;
  let signedMessages :=
    replaceValue String.eqb signedMessages address
      {| localFingerprints := localFingerprints history;
         localMessages := setNumbered (localMessages history) createdAt messageInfo |} in
  (* signedMessages[address].localFingerprints[domain] = fingerprint *)
  history ← getHistory signedMessages address;
  let signedMessages :=
    replaceValue String.eqb signedMessages address
      {| localFingerprints := setProperty (localFingerprints history) domain fingerprint;
         localMessages := localMessages history |} in
  Ok {| globalFingerprints := globalFingerprints web3Storage;
        signedMessages := signedMessages |}.

Definition setGlobalFingerprint (web3Storage : Web3Storage) (messageInfo : MessageInfo)
    : Web3Storage :=
  let domain := domain messageInfo in
  let fingerprint := fingerprint messageInfo in
  (* use the latest fingerprint, update global fingerprint *)
  {| globalFingerprints := setProperty (globalFingerprints web3Storage) domain fingerprint;
     signedMessages := signedMessages web3Storage |}.

(** The history of an address, empty when it has signed nothing. *)
Definition historyOf (signedMessages : SignedMessages) (address : string) : AddressHistory :=
  match get signedMessages address with
  | Some history => history
  | None => {| localFingerprints := []; localMessages := [] |}
  end.

(** The storages the controller goes through, starting from the empty one,
    by updates for domains other than [__proto__]. *)
Inductive Reachable : Web3Storage → Prop :=
  | reach_initial : Reachable (initialStorage None)
  | reach_setMessageInfo (web3Storage web3Storage' : Web3Storage) (messageInfo : MessageInfo) :
      Reachable web3Storage →
      domain messageInfo ≠ "__proto__" →
      setMessageInfo web3Storage messageInfo = Ok web3Storage' →
      Reachable web3Storage'
  | reach_setGlobalFingerprint (web3Storage : Web3Storage) (messageInfo : MessageInfo) :
      Reachable web3Storage →
      domain messageInfo ≠ "__proto__" →
      Reachable (setGlobalFingerprint web3Storage messageInfo).

(** Every message filed for an address was signed by that address, is
    filed under its own time stamp, and its domain has a local
    fingerprint; an address on file has signed for some domain. *)
Definition auditTrail (web3Storage : Web3Storage) : Prop :=
  ∀ signer history,
    get (signedMessages web3Storage) signer = Some history →
    localFingerprints history ≠ [] ∧
    ∀ time messageInfo,
      getNumbered (localMessages history) time = Some messageInfo →
      address messageInfo = signer ∧
      createdAt messageInfo = time ∧
      is_Some (get (localFingerprints history) (domain messageInfo)).

(** ** The two-argument revision of the assessor *)

Module Earlier.

Definition dangerPhishing (victim_domains : list string) : Risk :=
  {| severity := "danger";
     title := "Phishing Attack";
     body := "This website may be a phishing site. You had signed similar messages for "
             +:+ join ", " victim_domains
             +:+ ". Please check this website's domain name." |}.

Definition warningPhishing : Risk :=
  {| severity := "warning";
     title := "Phishing Attack";
     body := "This website has the risk of phishing attack. The message you signed does not include domain name. Please check this website's domain name." |}.

Definition warningReplay : Risk :=
  {| severity := "warning";
     title := "Replay Attack";
     body := "This message has the risk of replay attack, because it does not include nonce." |}.

Definition checkMessageBeforeSign (messageInfo : MessageInfo)
    (signedMessages : SignedMessages) : result (list Risk) :=
  let address := address messageInfo in
  let message := message messageInfo in
  let domain := domain messageInfo in
  let fingerprint := fingerprint messageInfo in
  let Risks : list Risk := [] in
  let domainInMsg := negb (Z.eqb (indexOf message domain) (-1)) in
  (* Danger: Phishing Attack *)
  Risks ←
    (if negb domainInMsg then
       match readProperty signedMessages address with
       | Own history =>
           let f1 := fingerprint in
           victim_domains ← matchingDomains (localFingerprints history) domain f1;
           if Nat.ltb 0 (length victim_domains)
           then Ok (push Risks (dangerPhishing victim_domains))
           else Ok Risks
       | Inherited =>
           (* localFingerprints is undefined: the loop visits nothing *)
           Ok Risks
       | Undefined => Ok Risks
       end
     else Ok Risks);
  (* Warning: Phishing Attack *)
  let Risks := if negb domainInMsg then push Risks warningPhishing else Risks in
  (* Warning: Replay Attack *)
  let nonceInMsg := some isNonce fingerprint in
  let Risks := if negb nonceInMsg then push Risks warningReplay else Risks in
  Ok Risks.

End Earlier.

(** ** Proof automation *)

(** Case analysis on every condition left in the goal. *)
Ltac case_conditions :=
  repeat match goal with
         | |- context [if ?b then _ else _] => destruct b
         end.

(** ** Strings: properties of the built-ins *)

Example split_keeps_separators :
  splitWhitespace " Sign  in to " = [EmptyString; " "; "Sign"; "  "; "in"; " "; "to"; " "; EmptyString].
Proof. reflexivity. Qed.

Example split_of_empty : splitWhitespace EmptyString = [EmptyString].
Proof. reflexivity. Qed.

Example replace_two_addresses :
  replaceAddress "from 0x00112233445566778899aAbBcCdDeEfF00112233 to 0x00112233445566778899aAbBcCdDeEfF001122330x"
  = "from _address_ to _address_0x".
Proof. reflexivity. Qed.

Example replace_needs_forty_digits :
  replaceAddress "0x00112233445566778899aAbBcCdDeEfF0011223 0X00112233445566778899aAbBcCdDeEfF00112233"
  = "0x00112233445566778899aAbBcCdDeEfF0011223 0X00112233445566778899aAbBcCdDeEfF00112233".
Proof. reflexivity. Qed.

Example no_break_space_is_whitespace :
  splitWhitespace ("a" +:+ String (ascii_of_nat 160) EmptyString +:+ "b")
  = ["a"; String (ascii_of_nat 160) EmptyString; "b"].
Proof. reflexivity. Qed.

Example indexOf_examples :
  indexOf (toLowerCase "Sign in to Example.COM") (toLowerCase "example.com") = 11%Z ∧
  indexOf "login" "bank.com" = (-1)%Z.
Proof. split; reflexivity. Qed.

Lemma append_cons (c : ascii) (s t : string) : String c s +:+ t = String c (s +:+ t).
Proof. reflexivity. Qed.

Lemma append_empty_l (t : string) : EmptyString +:+ t = t.
Proof. reflexivity. Qed.

Lemma append_empty_r (s : string) : s +:+ EmptyString = s.
Proof.
  induction s as [|c s IH]; [done |].
  by rewrite append_cons, IH.
Qed.

Lemma append_assoc (s t u : string) : (s +:+ t) +:+ u = s +:+ (t +:+ u).
Proof.
  induction s as [|c s IH]; [done |].
  by rewrite !append_cons, IH.
Qed.

Lemma concat_empty_cons (t : string) (ts : list string) :
  String.concat EmptyString (t :: ts) = t +:+ String.concat EmptyString ts.
Proof.
  destruct ts as [|t' ts]; cbn [String.concat].
  - by rewrite append_empty_r.
  - by rewrite append_empty_l.
Qed.

(** Splitting loses no code unit: the tokens joined give the text back. *)
Lemma split_from_concat (s : string) :
  ∀ (inSpace : bool) (cur : string),
    String.concat EmptyString (split_from inSpace cur s) = cur +:+ s.
Proof.
  induction s as [|c s IH]; intros inSpace cur.
  - destruct inSpace; cbn [split_from].
    + by rewrite !concat_empty_cons.
    + by rewrite concat_empty_cons.
  - cbn [split_from]. destruct (Bool.eqb (isWhiteSpace c) inSpace).
    + by rewrite IH, append_assoc.
    + by rewrite concat_empty_cons, IH.
Qed.

Lemma splitWhitespace_concat (s : string) :
  String.concat EmptyString (splitWhitespace s) = s.
Proof. unfold splitWhitespace. by rewrite split_from_concat. Qed.

Lemma allChars_snoc (p : ascii → bool) (s : string) (c : ascii) :
  allChars p (s +:+ String c EmptyString) = allChars p s && p c.
Proof.
  induction s as [|c' s IH].
  - rewrite append_empty_l. cbn. by rewrite andb_true_r.
  - rewrite append_cons. cbn [allChars]. by rewrite IH, andb_assoc.
Qed.

Lemma isSeparator_snoc (s : string) (c : ascii) :
  isWhiteSpace c = true →
  (s = EmptyString ∨ isSeparator s = true) →
  isSeparator (s +:+ String c EmptyString) = true.
Proof.
  intros Hc [-> | Hs].
  - rewrite append_empty_l. cbn. by rewrite Hc.
  - destruct s as [|c' s]; [done |].
    rewrite append_cons. cbn [isSeparator] in *.
    rewrite <- append_cons, allChars_snoc, Hs, Hc. done.
Qed.

Lemma split_from_piece (p : string) :
  ∀ (cur rest : string),
    isPiece p = true →
    split_from false cur (p +:+ rest) = split_from false (cur +:+ p) rest.
Proof.
  induction p as [|c p IH]; intros cur rest Hp.
  - by rewrite append_empty_l, append_empty_r.
  - cbn in Hp. apply andb_true_iff in Hp as [Hc Hp]. apply negb_true_iff in Hc.
    rewrite append_cons. cbn [split_from]. rewrite Hc. cbn [Bool.eqb].
    rewrite IH by done. f_equal. by rewrite append_assoc.
Qed.

Lemma split_from_space (w : string) :
  ∀ (cur rest : string),
    allChars isWhiteSpace w = true →
    split_from true cur (w +:+ rest) = split_from true (cur +:+ w) rest.
Proof.
  induction w as [|c w IH]; intros cur rest Hw.
  - by rewrite append_empty_l, append_empty_r.
  - cbn in Hw. apply andb_true_iff in Hw as [Hc Hw].
    rewrite append_cons. cbn [split_from]. rewrite Hc. cbn [Bool.eqb].
    rewrite IH by done. f_equal. by rewrite append_assoc.
Qed.

Lemma split_from_tail (n : nat) :
  ∀ (rest : list string) (p cur : string),
    length rest ≤ n →
    isPiece p = true →
    tailSplit rest = true →
    split_from false cur (p +:+ String.concat EmptyString rest) = (cur +:+ p) :: rest.
Proof.
  induction n as [|n IH]; intros rest p cur Hn Hp Hrest.
  - destruct rest; [|cbn in Hn; lia].
    cbn [String.concat]. by rewrite split_from_piece.
  - destruct rest as [|sep [|p2 rest]]; try done.
    { cbn [String.concat]. by rewrite split_from_piece. }
    { cbn in Hrest. by rewrite andb_false_r in Hrest. }
    cbn [tailSplit] in Hrest.
    apply andb_true_iff in Hrest as [Hsep [[Hp2 Hne]%andb_true_iff Hrest]%andb_true_iff].
    rewrite split_from_piece by done.
    rewrite concat_empty_cons.
    destruct sep as [|c sep]; [done |]. cbn [isSeparator allChars] in Hsep.
    apply andb_true_iff in Hsep as [Hc Hsep].
    rewrite append_cons. cbn [split_from]. rewrite Hc. cbn [Bool.eqb]. f_equal.
    rewrite split_from_space by done. 
    change (String c EmptyString +:+ sep) with (String c sep).
    rewrite concat_empty_cons.
    destruct p2 as [|c2 p2].
    + cbn in Hne. apply bool_decide_eq_true in Hne as ->. reflexivity.
    + cbn [isPiece allChars] in Hp2. apply andb_true_iff in Hp2 as [Hc2 Hp2].
      apply negb_true_iff in Hc2.
      rewrite append_cons. cbn [split_from]. rewrite Hc2. cbn [Bool.eqb]. f_equal.
      rewrite IH; [done | cbn in Hn; lia | done | done].
Qed.

(** A token list of that shape is the split of its concatenation. *)
Lemma splitWhitespace_unique (ts : list string) :
  wellSplit ts = true → splitWhitespace (String.concat EmptyString ts) = ts.
Proof.
  destruct ts as [|p rest]; [done |]. cbn [wellSplit].
  intros [Hp Hrest]%andb_true_iff. rewrite concat_empty_cons.
  unfold splitWhitespace. by rewrite (split_from_tail (length rest)).
Qed.

Lemma split_from_wellSplit (s : string) :
  ∀ (inSpace : bool) (cur : string),
    (if inSpace then isSeparator cur else isPiece cur) = true →
    if inSpace then tailSplit (split_from true cur s) = true
    else ∃ p rest,
        split_from false cur s = p :: rest ∧
        isPiece p = true ∧ tailSplit rest = true ∧
        (nonEmpty cur = true → nonEmpty p = true).
Proof.
  induction s as [|c s IH]; intros inSpace cur Hcur.
  - destruct inSpace; cbn [split_from].
    + cbn. by rewrite Hcur.
    + by exists cur, [].
  - destruct inSpace, (isWhiteSpace c) eqn:Hc; cbn [split_from]; rewrite Hc; cbn [Bool.eqb].
    + apply (IH true). apply isSeparator_snoc; auto.
    + destruct (IH false (String c EmptyString)) as (p & rest & -> & Hp & Hrest & Hne).
      { cbn. by rewrite Hc. }
      cbn [tailSplit]. by rewrite Hcur, Hp, Hrest, Hne.
    + exists cur, (split_from true (String c EmptyString) s).
      split; [done |]. split; [done |]. split; [|done].
      apply (IH true). cbn. by rewrite Hc.
    + destruct (IH false (cur +:+ String c EmptyString)) as (p & rest & -> & Hp & Hrest & Hne).
      { unfold isPiece in *. by rewrite allChars_snoc, Hcur, Hc. }
      exists p, rest. split; [done |]. split; [done |]. split; [done |].
      intros _. apply Hne. by destruct cur.
Qed.

Lemma splitWhitespace_wellSplit (s : string) : wellSplit (splitWhitespace s) = true.
Proof.
  destruct (split_from_wellSplit s false EmptyString eq_refl)
    as (p & rest & Heq & Hp & Hrest & _).
  unfold splitWhitespace. rewrite Heq. cbn. by rewrite Hp, Hrest.
Qed.

(** [splitWhitespace] is characterised by the shape of its result. *)
Lemma splitWhitespace_spec (s : string) (ts : list string) :
  splitWhitespace s = ts ↔ wellSplit ts = true ∧ String.concat EmptyString ts = s.
Proof.
  split.
  - intros <-. split; [apply splitWhitespace_wellSplit | apply splitWhitespace_concat].
  - intros [Hts <-]. by apply splitWhitespace_unique.
Qed.

Lemma split_from_nonempty (s : string) :
  ∀ (inSpace : bool) (cur : string), split_from inSpace cur s ≠ [].
Proof.
  induction s as [|c s IH]; intros inSpace cur; cbn [split_from].
  - by destruct inSpace.
  - destruct (Bool.eqb _ _); [apply IH | done].
Qed.

Lemma hexRun_length (n : nat) :
  ∀ s : string, hexRun n s = true →
    ∃ digits rest, s = digits +:+ rest ∧ String.length digits = n.
Proof.
  induction n as [|n IH]; intros s Hs.
  - by exists EmptyString, s.
  - destruct s as [|c s]; [done |]. cbn [hexRun] in Hs.
    apply andb_true_iff in Hs as [_ Hs].
    destruct (IH s Hs) as (digits & rest & -> & Hlen).
    exists (String c digits), rest. split; [done |]. cbn. by rewrite Hlen.
Qed.

(** A match spans 42 code units. *)
Lemma matchAddress_length (s : string) :
  matchAddress s = true →
  ∃ addr rest, s = addr +:+ rest ∧ String.length addr = 42.
Proof.
  unfold matchAddress. intros Hm.
  destruct s as [|c0 [|c1 s]]; try done.
  { by destruct c0 as [[] [] [] [] [] [] [] []]. }
  assert (hexRun 40 s = true) as Hs.
  { destruct c0 as [[] [] [] [] [] [] [] []]; try done.
    destruct c1 as [[] [] [] [] [] [] [] []]; done. }
  destruct (hexRun_length 40 s Hs) as (digits & rest & -> & Hlen).
  exists (String c0 (String c1 digits)), rest. split; [done |]. cbn. by rewrite Hlen.
Qed.

Lemma replaceAddress_from_skip (pre rest : string) :
  replaceAddress_from (String.length pre) (pre +:+ rest) = replaceAddress rest.
Proof.
  induction pre as [|c pre IH].
  - rewrite append_empty_l. by destruct rest.
  - rewrite append_cons. exact IH.
Qed.

(** A match at the head is replaced as a whole and the search resumes
    behind its 42 code units. *)
Lemma replaceAddress_match (addr rest : string) :
  String.length addr = 42%nat →
  matchAddress (addr +:+ rest) = true →
  replaceAddress (addr +:+ rest) = "_address_" +:+ replaceAddress rest.
Proof.
  intros Hlen Hm. destruct addr as [|c addr]; [done |].
  rewrite append_cons in *. unfold replaceAddress at 1.
  cbn [replaceAddress_from]. rewrite Hm. f_equal.
  injection Hlen as <-. apply replaceAddress_from_skip.
Qed.

(** Where no match starts, the code unit is kept. *)
Lemma replaceAddress_keep (c : ascii) (s : string) :
  matchAddress (String c s) = false →
  replaceAddress (String c s) = String c (replaceAddress s).
Proof. intros Hm. unfold replaceAddress. cbn [replaceAddress_from]. by rewrite Hm. Qed.

Lemma replaceAddress_noAddress (s : string) :
  noAddress s = true → replaceAddress s = s.
Proof.
  induction s as [|c s IH]; [done |].
  cbn [noAddress]. intros [Hm Hs]%andb_true_iff.
  apply negb_true_iff in Hm. rewrite replaceAddress_keep by done.
  by rewrite IH.
Qed.

(** ** Address replacement against its description *)

Lemma length_append (s t : string) :
  String.length (s +:+ t) = String.length s + String.length t.
Proof. induction s as [|c s IH]; [done |]. rewrite append_cons. cbn. by rewrite IH. Qed.

Lemma matchAddress_inv (s : string) :
  matchAddress s = true → ∃ s', s = String "0" (String "x" s') ∧ hexRun 40 s' = true.
Proof.
  unfold matchAddress. intros Hm.
  destruct s as [|c0 [|c1 s]]; try done.
  { by destruct c0 as [[] [] [] [] [] [] [] []]. }
  destruct c0 as [[] [] [] [] [] [] [] []]; try done.
  destruct c1 as [[] [] [] [] [] [] [] []]; try done.
  by exists s.
Qed.

Lemma hexRun_spec (n : nat) :
  ∀ s : string,
    hexRun n s = true
    ↔ ∃ digits rest,
        s = digits +:+ rest ∧ String.length digits = n ∧
        allChars isHexDigit digits = true.
Proof.
  induction n as [|n IH]; intros s.
  - split; [intros _; by exists EmptyString, s |done].
  - destruct s as [|c s]; cbn [hexRun].
    + split; [done |]. intros (digits & rest & Heq & Hlen & _).
      destruct digits; [done | by rewrite append_cons in Heq].
    + rewrite andb_true_iff, IH. split.
      * intros (Hc & digits & rest & -> & Hlen & Hall).
        exists (String c digits), rest. cbn. by rewrite Hc, Hlen, Hall.
      * intros (digits & rest & Heq & Hlen & Hall).
        destruct digits as [|c' digits]; [done |].
        rewrite append_cons in Heq. injection Heq as -> ->.
        cbn in Hlen, Hall. apply andb_true_iff in Hall as [Hc Hall].
        split; [done |]. exists digits, rest. split; [done |]. split; [lia | done].
Qed.

(** The pattern matches at the head exactly where an address starts. *)
Lemma matchAddress_spec (s : string) :
  matchAddress s = true ↔ startsWithAddress s.
Proof.
  split.
  - intros (s' & -> & Hs)%matchAddress_inv.
    apply hexRun_spec in Hs as (digits & rest & -> & Hlen & Hall).
    exists (String "0" (String "x" digits)), rest. split; [done |]. by exists digits.
  - intros (addr & rest & -> & digits & -> & Hlen & Hall).
    rewrite !append_cons. cbn [matchAddress]. apply hexRun_spec. by exists digits, rest.
Qed.

Lemma isAddress_length (addr : string) : isAddress addr → String.length addr = 42.
Proof. intros (digits & -> & Hlen & _). cbn. by rewrite Hlen. Qed.

Lemma replaceAddress_Replaced_bounded (n : nat) :
  ∀ s : string, String.length s ≤ n → Replaced s (replaceAddress s).
Proof.
  induction n as [|n IH]; intros s Hn.
  - destruct s; [constructor | cbn in Hn; lia].
  - destruct s as [|c s]; [constructor |].
    destruct (matchAddress (String c s)) eqn:Hm.
    + pose proof Hm as (addr & rest & Heq & Haddr)%matchAddress_spec.
      pose proof (isAddress_length _ Haddr) as Hlen.
      rewrite Heq in Hm |- *. rewrite replaceAddress_match by done.
      apply Replaced_match; [done |]. apply IH.
      assert (String.length (String c s) = 42 + String.length rest) as Hl
        by (by rewrite Heq, length_append, Hlen).
      cbn in Hl, Hn. lia.
    + rewrite replaceAddress_keep by done. apply Replaced_keep.
      * intros Hs%matchAddress_spec. congruence.
      * apply IH. cbn in Hn. lia.
Qed.

(** [replaceAddress] replaces every address, found from left to right. *)
Lemma replaceAddress_Replaced (s : string) : Replaced s (replaceAddress s).
Proof. by apply (replaceAddress_Replaced_bounded (String.length s)). Qed.

(** The description leaves one result only. *)
Lemma Replaced_replaceAddress (s r : string) : Replaced s r → r = replaceAddress s.
Proof.
  induction 1 as [|addr rest r Haddr _ IH|c s r Hno _ IH].
  - done.
  - rewrite replaceAddress_match; [by rewrite IH | by apply isAddress_length |].
    apply matchAddress_spec. by exists addr, rest.
  - rewrite replaceAddress_keep; [by rewrite IH |].
    destruct (matchAddress (String c s)) eqn:Hm; [|done].
    by apply matchAddress_spec in Hm.
Qed.

Lemma concat_elem_Occurs (ts : list string) (token : string) :
  token ∈ ts → Occurs token (String.concat EmptyString ts).
Proof.
  induction ts as [|t ts IH]; [by intros ?%elem_of_nil |].
  rewrite concat_empty_cons. intros [-> | Hin]%elem_of_cons.
  - by exists EmptyString, (String.concat EmptyString ts).
  - destruct (IH Hin) as (pre & post & ->).
    exists (t +:+ pre), post. by rewrite append_assoc.
Qed.

(** ** FingerprintEngine: properties *)

Lemma mapM_Ok {A B : Type} (f : A → result B) (l : list A) (k : list B) :
  mapM f l = Ok k ↔ Forall2 (fun x y => f x = Ok y) l k.
Proof.
  revert k. induction l as [|x l IH]; intros k.
  - split.
    + intros [= <-]. constructor.
    + intros ->%Forall2_nil_inv_l. done.
  - cbn. split.
    + destruct (f x) as [y|e] eqn:Hf; [|done]. cbn.
      destruct (mapM f l) as [ys|e] eqn:Hl; [|done]. cbn.
      intros [= <-]. constructor; [done |]. by apply IH.
    + intros (y & ys & Hf & Hl & ->)%Forall2_cons_inv_l.
      rewrite Hf. cbn. apply IH in Hl. rewrite Hl. done.
Qed.

Lemma some_length_differs (first : list string) (wss : list (list string)) :
  some (fun words => negb (Nat.eqb (length words) (length first))) wss = false
  ↔ ∀ ws, ws ∈ wss → length ws = length first.
Proof.
  unfold some. induction wss as [|ws wss IH]; cbn.
  - split; [|done]. intros _ ws Hin. by apply elem_of_nil in Hin.
  - rewrite orb_false_iff, negb_false_iff, Nat.eqb_eq, IH. split.
    + intros [H1 H2] ws' [-> | Hin]%elem_of_cons; auto.
    + intros H. split; [apply H; left | intros ws' Hin; apply H; by right].
Qed.

Lemma some_length_sameLength (ws : list string) (wss : list (list string)) :
  some (fun words => negb (Nat.eqb (length words) (length ws))) (ws :: wss) = false
  ↔ sameLength (ws :: wss).
Proof.
  rewrite some_length_differs. split.
  - intros H ws1 ws2 H1 H2. by rewrite (H ws1), (H ws2).
  - intros H ws' Hin. apply H; [done | left].
Qed.

(** The run of [generateFingerprint] once the words of every input are known. *)
Lemma generateFingerprint_words (messageList : list Message) (messages_words : list (list string)) :
  Forall2 (fun m ws => toWords m = Ok ws) messageList messages_words →
  generateFingerprint messageList =
    match messages_words with
    | [] => Throw EmptyInput
    | [words] => Ok words
    | first :: _ =>
        if some (fun words => negb (Nat.eqb (length words) (length first))) messages_words
        then Throw LengthMismatch
        else Ok (imap (fun i word =>
                         if every (wordAt_eq i word) messages_words then word else NONCE)
                      first)
    end.
Proof.
  intros H. unfold generateFingerprint.
  pose proof (Forall2_length _ _ _ H) as Hlen.
  apply mapM_Ok in H. rewrite H.
  destruct messageList as [|m ml], messages_words as [|ws wss]; try done.
  cbn [length Nat.eqb mbind result_bind hd].
  destruct wss as [|ws' wss]; done.
Qed.

Lemma every_wordAt_eq (i : nat) (word : string) (wss : list (list string)) :
  every (wordAt_eq i word) wss = true ↔ ∀ ws, ws ∈ wss → ws !! i = Some word.
Proof.
  unfold every. rewrite forallb_forall. split.
  - intros H ws Hin. apply list_elem_of_In, H in Hin.
    unfold wordAt_eq in Hin. destruct (ws !! i) as [w|]; [|done].
    by apply String.eqb_eq in Hin as ->.
  - intros H ws Hin. apply list_elem_of_In, H in Hin.
    unfold wordAt_eq. rewrite Hin. apply String.eqb_refl.
Qed.

(** The inferred fingerprint, position by position. *)
Lemma inferred_lookup (first : list string) (wss : list (list string)) (i : nat) :
  first ∈ wss →
  imap (fun i word => if every (wordAt_eq i word) wss then word else NONCE) first !! i
  = match first !! i with
    | Some word => Some (if every (wordAt_eq i word) wss then word else NONCE)
    | None => None
    end.
Proof. intros _. rewrite list_lookup_imap. by destruct (first !! i). Qed.

Lemma generateFingerprint_inferred (messageList : list Message)
    (messages_words : list (list string)) :
  Forall2 (fun m ws => toWords m = Ok ws) messageList messages_words →
  2 ≤ length messageList →
  sameLength messages_words →
  ∃ first fp,
    head messages_words = Some first ∧
    generateFingerprint messageList = Ok fp ∧
    length fp = length first ∧
    ∀ i, fp !! i =
         match first !! i with
         | Some word => Some (if every (wordAt_eq i word) messages_words then word else NONCE)
         | None => None
         end.
Proof.
  intros H Hlen Hsame.
  rewrite (generateFingerprint_words _ _ H).
  apply Forall2_length in H. rewrite H in Hlen.
  destruct messages_words as [|first [|ws wss]]; cbn in Hlen; [lia | lia |].
  apply some_length_sameLength in Hsame. rewrite Hsame.
  eexists first, _. split; [done |]. split; [done |].
  split; [apply length_imap |].
  intros i. apply inferred_lookup. left.
Qed.

(** C4: two or more inputs whose token sequences all have length [n] give a
    fingerprint of length [n]; a position at which every input holds the
    same token keeps that token, any other position below [n] holds
    [_nonce_]; two inputs of equal length that differ at exactly one
    position [i] give the first token sequence with [_nonce_] written at
    position [i]. *)
Theorem generateFingerprint_positionwise :
  (∀ (messageList : list Message) (messages_words : list (list string)) (n : nat),
     Forall2 (fun m ws => toWords m = Ok ws) messageList messages_words →
     2 ≤ length messageList →
     (∀ ws, ws ∈ messages_words → length ws = n) →
     ∃ fp,
       generateFingerprint messageList = Ok fp ∧
       length fp = n ∧
       (∀ i word, (∀ ws, ws ∈ messages_words → ws !! i = Some word) → fp !! i = Some word) ∧
       (∀ i, i < n →
             ¬ (∃ word, ∀ ws, ws ∈ messages_words → ws !! i = Some word) →
             fp !! i = Some NONCE)) ∧
  (∀ (m1 m2 : Message) (ws1 ws2 : list string) (i : nat),
     toWords m1 = Ok ws1 →
     toWords m2 = Ok ws2 →
     length ws1 = length ws2 →
     i < length ws1 →
     ws1 !! i ≠ ws2 !! i →
     (∀ j, j ≠ i → ws1 !! j = ws2 !! j) →
     generateFingerprint [m1; m2] = Ok (<[i := NONCE]> ws1)).
Proof.
  split.
  - intros messageList messages_words n H Hlen Hn.
    destruct (generateFingerprint_inferred messageList messages_words H Hlen)
      as (first & fp & Hhd & Hfp & Hlenfp & Hpos).
    { intros ws1 ws2 H1 H2. by rewrite (Hn ws1), (Hn ws2). }
    assert (first ∈ messages_words) as Hfirst.
    { destruct messages_words; [done |]. injection Hhd as ->. left. }
    exists fp. split; [done |]. split; [by rewrite Hlenfp; apply Hn |].
    split.
    + intros i word Hall. rewrite Hpos, (Hall first Hfirst).
      apply every_wordAt_eq in Hall. by rewrite Hall.
    + intros i Hi Hno. rewrite Hpos.
      destruct (first !! i) as [word|] eqn:Hw.
      * destruct (every (wordAt_eq i word) messages_words) eqn:Hev; [|done].
        exfalso. apply Hno. exists word. by apply every_wordAt_eq.
      * apply lookup_ge_None in Hw. rewrite (Hn first Hfirst) in Hw. lia.
  - intros m1 m2 ws1 ws2 i H1 H2 Hlen Hi Hdiff Hsame.
    destruct (generateFingerprint_inferred [m1; m2] [ws1; ws2])
      as (first & fp & Hhd & Hfp & Hlenfp & Hpos).
    { repeat constructor; done. }
    { cbn. lia. }
    { intros a b [-> | ->%list_elem_of_singleton]%elem_of_cons
             [-> | ->%list_elem_of_singleton]%elem_of_cons; done. }
    injection Hhd as <-. rewrite Hfp. f_equal.
    apply list_eq. intros j. rewrite Hpos.
    destruct (decide (j = i)) as [-> | Hne].
    + rewrite list_lookup_insert_eq by done.
      destruct (ws1 !! i) as [word|] eqn:Hw; [|by apply lookup_ge_None in Hw; lia].
      destruct (every (wordAt_eq i word) [ws1; ws2]) eqn:Hev; [|done].
      exfalso. apply Hdiff. rewrite every_wordAt_eq in Hev.
      rewrite (Hev ws2) by (right; left). done.
    + rewrite list_lookup_insert_ne by done.
      destruct (ws1 !! j) as [word|] eqn:Hw; [|done].
      assert (every (wordAt_eq j word) [ws1; ws2] = true) as ->; [|done].
      apply every_wordAt_eq.
      intros ws [-> | ->%list_elem_of_singleton]%elem_of_cons; [done |].
      by rewrite <- Hsame.
Qed.

(** C5: on inputs that are strings or fingerprints, [generateFingerprint]
    throws [EmptyInput] exactly for the empty list, throws [LengthMismatch]
    exactly for two or more inputs whose token sequences do not all have
    the same length, and returns a fingerprint for every other input. *)
Theorem generateFingerprint_failures (messageList : list Message)
    (messages_words : list (list string)) :
  Forall2 (fun m ws => toWords m = Ok ws) messageList messages_words →
  (generateFingerprint messageList = Throw EmptyInput ↔ messageList = []) ∧
  (generateFingerprint messageList = Throw LengthMismatch ↔
     2 ≤ length messageList ∧ ¬ sameLength messages_words) ∧
  (messageList ≠ [] ∧ ¬ (2 ≤ length messageList ∧ ¬ sameLength messages_words) →
     ∃ fp, generateFingerprint messageList = Ok fp).
Proof.
  intros H. rewrite (generateFingerprint_words _ _ H).
  destruct H as [|m ws ml wss Hm H]; [|destruct H as [|m' ws' ml' wss' Hm' H]].
  - split; [done |]. split; [|intros [? _]; done].
    split; [done | cbn; lia].
  - split; [done |]. split; [|eauto].
    split; [done | cbn; lia].
  - destruct (some _ (ws :: ws' :: wss')) eqn:Hsome.
    + assert (¬ sameLength (ws :: ws' :: wss')) as Hns.
      { intros Hs%some_length_sameLength. congruence. }
      split; [done |]. split.
      * split; [intros _; split; [cbn; lia | done] | done].
      * intros [_ Hno]. exfalso. apply Hno. split; [cbn; lia | done].
    + apply some_length_sameLength in Hsome.
      split; [done |]. split; [|eauto].
      split; [done | intros [_ Hns]; done].
Qed.

(** C6: for every message text the fingerprint of the text alone exists; it
    is the token split of the text in which every address, [0x] and 40
    hexadecimal digits, found from left to right, is replaced by
    [_address_]: the replaced text is the only one the description of the
    replacement allows, the tokens joined give it back, they are pieces and
    whitespace runs in turn, and no other token list of that shape does;
    nothing is inferred, every token being cut from the replaced text; and
    the fingerprint fed back as the only input comes out unchanged. *)
Theorem generateFingerprint_single (m : string) :
  ∃ (normalized : string) (fp : Fingerprint),
    Replaced m normalized ∧
    (∀ r, Replaced m r → r = normalized) ∧
    generateFingerprint [Str m] = Ok fp ∧
    String.concat EmptyString fp = normalized ∧
    wellSplit fp = true ∧
    (∀ ts, wellSplit ts = true → String.concat EmptyString ts = normalized → ts = fp) ∧
    (∀ token, token ∈ fp → Occurs token normalized) ∧
    generateFingerprint [Arr fp] = Ok fp.
Proof.
  exists (replaceAddress m), (splitWhitespace (replaceAddress m)).
  split; [apply replaceAddress_Replaced |].
  split; [apply Replaced_replaceAddress |].
  split; [done |].
  split; [apply splitWhitespace_concat |].
  split; [apply splitWhitespace_wellSplit |].
  split.
  { intros ts Hts <-. symmetry. by apply splitWhitespace_unique. }
  split; [|done].
  intros token Hin. rewrite <- (splitWhitespace_concat (replaceAddress m)).
  by apply concat_elem_Occurs.
Qed.

Lemma compareWords_maskNonce (a b : Fingerprint) :
  ∀ positions : nat → bool,
    compareWords a b = true → compareWords a (maskNonce positions b) = true.
Proof.
  revert b. induction a as [|word1 a IH]; intros [|word2 b] positions; try done.
  unfold maskNonce. cbn [compareWords imap].
  fold (maskNonce (positions ∘ S) b).
  destruct (positions 0).
  - rewrite String.eqb_refl, orb_true_r.
    destruct (_ || _); [apply IH |].
    destruct (negb _); [done | apply IH].
  - destruct (_ || _); [apply IH |].
    destruct (negb _); [done | apply IH].
Qed.

(** C7: masking any set of positions of [b] with [_nonce_] keeps a true
    comparison with [a] true, and there are fingerprints of equal length
    whose false comparison becomes true by masking. *)
Theorem compareFingerprint_mask_monotone :
  (∀ (a b : Fingerprint) (positions : nat → bool),
     length a = length b →
     compareFingerprint a b = true →
     compareFingerprint a (maskNonce positions b) = true) ∧
  (∃ (a b : Fingerprint) (positions : nat → bool),
     length a = length b ∧
     compareFingerprint a b = false ∧
     compareFingerprint a (maskNonce positions b) = true).
Proof.
  split.
  - intros a b positions Hlen. unfold compareFingerprint, maskNonce.
    rewrite length_imap.
    destruct (negb _); [done |]. apply compareWords_maskNonce.
  - exists ["login"; " "; "123"], ["login"; " "; "456"], (fun i => Nat.eqb i 2).
    done.
Qed.


(** ** Property reads *)

Lemma readProperty_Own {V : Type} (o : JSObject V) (k : string) (v : V) :
  get o k = Some v → readProperty o k = Own v.
Proof. unfold readProperty. by intros ->. Qed.

Lemma readProperty_Own_inv {V : Type} (o : JSObject V) (k : string) (v : V) :
  readProperty o k = Own v → get o k = Some v.
Proof. unfold readProperty. destruct (get o k); [congruence | by destruct (inheritedKey k)]. Qed.

Lemma readProperty_None {V : Type} (o : JSObject V) (k : string) :
  get o k = None →
  readProperty o k = if inheritedKey k then Inherited else Undefined.
Proof. unfold readProperty. by intros ->. Qed.

Lemma readProperty_Undefined {V : Type} (o : JSObject V) (k : string) :
  readProperty o k = Undefined ↔ get o k = None ∧ inheritedKey k = false.
Proof.
  unfold readProperty. destruct (get o k).
  - split; [discriminate | by intros [? _]].
  - destruct (inheritedKey k); split; try done; by intros [_ ?].
Qed.

(** ** MessageInfoFactory: properties *)

(** C2: [createMessageInfo] returns for every request and every table; when
    the fingerprint stored for the domain has another token count than the
    message, the two-input attempt throws [LengthMismatch] and the returned
    record carries the fingerprint of the message text alone. *)
Theorem createMessageInfo_never_fails (now : Z) (msg : Request)
    (globalFingerprints : GlobalFingerprints) :
  (∃ messageInfo, createMessageInfo now msg globalFingerprints = Ok messageInfo) ∧
  (∀ stored : Fingerprint,
     get globalFingerprints (req_domain msg) = Some stored →
     length stored ≠ length (splitWhitespace (replaceAddress (req_message msg))) →
     generateFingerprint [Str (req_message msg); Arr stored] = Throw LengthMismatch ∧
     ∃ messageInfo,
       createMessageInfo now msg globalFingerprints = Ok messageInfo ∧
       generateFingerprint [Str (req_message msg)] = Ok (fingerprint messageInfo) ∧
       fingerprint messageInfo = splitWhitespace (replaceAddress (req_message msg))).
Proof.
  unfold createMessageInfo. split.
  - destruct (readProperty globalFingerprints (req_domain msg)) as [stored| |];
      [| |by eexists]; cbn [push app].
    + destruct (generateFingerprint [Str (req_message msg); Arr stored]); by eexists.
    + destruct (generateFingerprint [Str (req_message msg); Other]); by eexists.
  - intros stored Hstored Hlen. rewrite (readProperty_Own _ _ _ Hstored). cbn [push app].
    assert (generateFingerprint [Str (req_message msg); Arr stored] = Throw LengthMismatch)
      as Hthrow.
    { rewrite (generateFingerprint_words _
                 [splitWhitespace (replaceAddress (req_message msg)); stored])
        by (repeat constructor).
      cbn [some existsb]. rewrite Nat.eqb_refl. cbn [negb orb].
      apply Nat.eqb_neq in Hlen. by rewrite Hlen. }
    split; [done |]. rewrite Hthrow. by eexists.
Qed.

(** ** Objects and strings: lookups and occurrences *)

Lemma get_keys {V : Type} (o : JSObject V) (k : string) :
  k ∈ keys o ↔ is_Some (get o k).
Proof.
  induction o as [|[k' v] o IH]; cbn.
  - split; [by intros ?%elem_of_nil | by intros [? ?]].
  - rewrite elem_of_cons, IH. destruct (String.eqb_spec k' k) as [-> | Hne].
    + split; [eauto | by left].
    + split; [intros [-> | ?]; done | by right].
Qed.

Lemma prefix_append (pat s : string) :
  String.prefix pat s = true ↔ ∃ post, s = pat +:+ post.
Proof.
  revert s. induction pat as [|c pat IH]; intros s.
  - split; [intros _; by exists s | by destruct s].
  - destruct s as [|c' s]; cbn [String.prefix].
    + split; [done | by intros [post ?]].
    + destruct (ascii_dec c c') as [<- | Hne].
      * rewrite IH. split; intros [post Hp]; exists post.
        -- by rewrite append_cons, <- Hp.
        -- rewrite append_cons in Hp. by injection Hp.
      * split; [done |]. intros [post Hp].
        rewrite append_cons in Hp. by injection Hp as -> _.
Qed.

Lemma indexOf_from_found (pat s : string) :
  ∀ i : Z, (0 ≤ i)%Z → indexOf_from i pat s ≠ (-1)%Z ↔ Occurs pat s.
Proof.
  induction s as [|c s IH]; intros i Hi; cbn [indexOf_from].
  - destruct (String.prefix pat EmptyString) eqn:Hp.
    + split; [|lia]. intros _. apply prefix_append in Hp as [post Hp].
      by exists EmptyString, post.
    + split; [done |]. intros (pre & post & Hs). exfalso.
      destruct pre; [|done]. rewrite append_empty_l in Hs.
      assert (String.prefix pat EmptyString = true) by (apply prefix_append; eauto).
      congruence.
  - destruct (String.prefix pat (String c s)) eqn:Hp.
    + split; [|lia]. intros _. apply prefix_append in Hp as [post Hp].
      by exists EmptyString, post.
    + rewrite IH by lia. split.
      * intros (pre & post & ->). by exists (String c pre), post.
      * intros (pre & post & Hs). destruct pre as [|c' pre].
        -- rewrite append_empty_l in Hs.
           assert (String.prefix pat (String c s) = true) by (apply prefix_append; eauto).
           congruence.
        -- rewrite append_cons in Hs. injection Hs as _ ->. by exists pre, post.
Qed.

(** [indexOf] finds exactly the patterns that occur. *)
Lemma indexOf_found (s pat : string) : indexOf s pat ≠ (-1)%Z ↔ Occurs pat s.
Proof. by apply indexOf_from_found. Qed.

Lemma domainInMessage_spec (messageInfo : MessageInfo) :
  domainInMessage messageInfo = true
  ↔ Occurs (toLowerCase (domain messageInfo)) (toLowerCase (message messageInfo)).
Proof.
  unfold domainInMessage. rewrite <- indexOf_found, negb_true_iff, Z.eqb_neq. done.
Qed.

Lemma someOtherMatches_spec (table : JSObject Fingerprint) (domain : string)
    (f1 : Fingerprint) :
  someOtherMatches table domain f1 = true
  ↔ ∃ d f2, d ≠ domain ∧ get table d = Some f2 ∧ compareFingerprint f1 f2 = true.
Proof.
  unfold someOtherMatches, matchesOther. rewrite existsb_exists. split.
  - intros (d & _ & [Hne Hm]%andb_true_iff).
    destruct (get table d) as [f2|] eqn:Hg; [|done].
    exists d, f2. by apply negb_true_iff, String.eqb_neq in Hne.
  - intros (d & f2 & Hne & Hg & Hm). exists d. split.
    + apply list_elem_of_In, get_keys. by rewrite Hg.
    + rewrite Hg, Hm. by apply String.eqb_neq in Hne as ->.
Qed.

Lemma containsNonce_some (f : Fingerprint) : some isNonce f = containsNonce f.
Proof.
  unfold containsNonce, some. destruct (existsb isNonce f) eqn:He; symmetry.
  - apply bool_decide_eq_true. apply existsb_exists in He as (w & Hin & Hw).
    apply String.eqb_eq in Hw as ->. by apply list_elem_of_In.
  - apply bool_decide_eq_false. intros Hin%list_elem_of_In.
    assert (existsb isNonce f = true); [|congruence].
    apply existsb_exists. exists NONCE. split; [done | apply String.eqb_refl].
Qed.

(** ** RiskAssessor: properties *)

Lemma scanDomains_filter (table : JSObject Fingerprint) (domain : string) (f1 : Fingerprint)
    (ds : list string) :
  ∀ found : list string,
    (∀ d, d ∈ ds → is_Some (get table d)) →
    scanDomains table domain f1 ds found
    = Ok (found ++ List.filter (matchesOther table domain f1) ds).
Proof.
  induction ds as [|d ds IH]; intros found Hds; cbn [scanDomains List.filter].
  - by rewrite app_nil_r.
  - assert (∀ d', d' ∈ ds → is_Some (get table d')) as Hds'.
    { intros d' Hin. apply Hds. by right. }
    destruct (String.eqb d domain) eqn:Heq.
    { assert (matchesOther table domain f1 d = false) as ->; [|by apply IH].
      unfold matchesOther. by rewrite Heq. }
    destruct (Hds d) as [f2 Hf2]; [left |].
    assert (matchesOther table domain f1 d = compareFingerprint f1 f2) as ->.
    { unfold matchesOther. by rewrite Heq, Hf2. }
    unfold getDefined. rewrite Hf2. cbn [mbind result_bind].
    rewrite IH by done.
    destruct (compareFingerprint f1 f2); [|done].
    unfold push. by rewrite <- app_assoc.
Qed.

(** The [for ... in] loop yields the other matching domains in iteration
    order and never throws. *)
Lemma matchingDomains_otherDomains (table : JSObject Fingerprint) (domain : string)
    (f1 : Fingerprint) :
  matchingDomains table domain f1 = Ok (otherDomains table domain f1).
Proof.
  unfold matchingDomains. rewrite scanDomains_filter; [done |].
  intros d Hin. by apply get_keys.
Qed.

Lemma otherDomains_nonempty (table : JSObject Fingerprint) (domain : string)
    (f1 : Fingerprint) :
  Nat.ltb 0 (length (otherDomains table domain f1)) = someOtherMatches table domain f1.
Proof.
  unfold otherDomains, someOtherMatches.
  induction (keys table) as [|d ds IH]; [done |].
  cbn [List.filter existsb]. destruct (matchesOther table domain f1 d); [done |].
  exact IH.
Qed.

Lemma otherDomains_head (table : JSObject Fingerprint) (domain : string)
    (f1 : Fingerprint) :
  head (otherDomains table domain f1) = firstMatchingDomain table domain f1.
Proof.
  unfold otherDomains, firstMatchingDomain.
  induction (keys table) as [|d ds IH]; [done |].
  cbn [List.filter List.find]. by destruct (matchesOther table domain f1 d).
Qed.

Lemma otherDomains_get (table : JSObject Fingerprint) (domain : string)
    (f1 : Fingerprint) (d : string) :
  d ∈ otherDomains table domain f1 → is_Some (get table d).
Proof.
  unfold otherDomains. intros [Hin _]%list_elem_of_In%filter_In.
  by apply get_keys, list_elem_of_In.
Qed.

(** The result of an assessment.  It throws when the signer's address names
    a property that [signedMessages] inherits and does not own; otherwise it
    returns the surviving phishing finding, then the replay finding. *)
Lemma checkMessageBeforeSign_result (messageInfo : MessageInfo)
    (signedMessages : SignedMessages) (globalFingerprints : GlobalFingerprints) :
  checkMessageBeforeSign messageInfo signedMessages globalFingerprints
  = if addressInherited signedMessages (address messageInfo)
    then Throw TypeError
    else Ok (phishingFinding messageInfo signedMessages globalFingerprints
             ++ replayAppended messageInfo signedMessages globalFingerprints).
Proof.
  unfold checkMessageBeforeSign, phishingFinding, replayAppended, nonceInMsg_read,
    dangerTrigger, warningTrigger, victimDomains, localRead, addressInherited.
  fold (domainInMessage messageInfo).
  rewrite matchingDomains_otherDomains. cbn [mbind result_bind].
  rewrite otherDomains_nonempty, <- otherDomains_head.
  set (similarDomains := otherDomains globalFingerprints _ _).
  assert (∀ d0 rest, similarDomains = d0 :: rest → is_Some (get globalFingerprints d0))
    as Hhead.
  { intros d0 rest Heq. apply (otherDomains_get _ (domain messageInfo) (fingerprint messageInfo)).
    fold similarDomains. rewrite Heq. left. }
  unfold readProperty.
  destruct (get signedMessages (address messageInfo)) as [history|].
  - rewrite matchingDomains_otherDomains. cbn [mbind result_bind].
    rewrite otherDomains_nonempty.
    set (victim_domains := otherDomains (localFingerprints history) _ _).
    destruct (get (localFingerprints history) (domain messageInfo)) as [fp|];
      [|destruct (inheritedKey (domain messageInfo))].
    + rewrite containsNonce_some.
      destruct (someOtherMatches (localFingerprints history) _ _),
        (someOtherMatches globalFingerprints _ _), (domainInMessage messageInfo),
        (containsNonce (fingerprint messageInfo)); reflexivity.
    + rewrite containsNonce_some.
      destruct (someOtherMatches (localFingerprints history) _ _),
        (someOtherMatches globalFingerprints _ _), (domainInMessage messageInfo),
        (containsNonce (fingerprint messageInfo)); reflexivity.
    + destruct similarDomains as [|d0 rest] eqn:Hsim; cbn [head].
      * destruct (someOtherMatches (localFingerprints history) _ _),
          (someOtherMatches globalFingerprints _ _), (domainInMessage messageInfo);
          reflexivity.
      * destruct (Hhead d0 rest eq_refl) as [f Hf]. unfold getDefined. rewrite Hf.
        cbn [mbind result_bind]. rewrite containsNonce_some.
        destruct (someOtherMatches (localFingerprints history) _ _),
          (someOtherMatches globalFingerprints _ _), (domainInMessage messageInfo),
          (containsNonce f); reflexivity.
  - destruct (inheritedKey (address messageInfo)).
    { destruct (someOtherMatches globalFingerprints _ _), (domainInMessage messageInfo);
        reflexivity. }
    destruct similarDomains as [|d0 rest] eqn:Hsim; cbn [head].
    + destruct (someOtherMatches globalFingerprints _ _), (domainInMessage messageInfo);
        reflexivity.
    + destruct (Hhead d0 rest eq_refl) as [f Hf]. unfold getDefined. rewrite Hf.
      cbn [mbind result_bind]. rewrite containsNonce_some.
      destruct (someOtherMatches globalFingerprints _ _), (domainInMessage messageInfo),
        (containsNonce f); reflexivity.
Qed.

(** The local test of the code and the own entry of the description agree
    for a domain that names no inherited property. *)
Lemma localRead_hasLocalEntry (signedMessages : SignedMessages) (address domain : string) :
  inheritedKey domain = false →
  localRead signedMessages address domain = hasLocalEntry signedMessages address domain.
Proof.
  intros Hdom. unfold localRead, hasLocalEntry, readProperty.
  destruct (get signedMessages address) as [history|]; [|done].
  destruct (get (localFingerprints history) domain); [done | by rewrite Hdom].
Qed.

Lemma hasLocalEntry_localRead (signedMessages : SignedMessages) (address domain : string) :
  hasLocalEntry signedMessages address domain = true →
  localRead signedMessages address domain = true.
Proof.
  unfold localRead, hasLocalEntry, readProperty.
  destruct (get signedMessages address) as [history|]; [|done].
  by destruct (get (localFingerprints history) domain).
Qed.

Lemma replayAppended_replayFinding (messageInfo : MessageInfo)
    (signedMessages : SignedMessages) (globalFingerprints : GlobalFingerprints) :
  inheritedKey (domain messageInfo) = false →
  replayAppended messageInfo signedMessages globalFingerprints
  = replayFinding messageInfo signedMessages globalFingerprints.
Proof.
  intros Hdom. unfold replayAppended, replayFinding, nonceInMsg_read, nonceInMsg_spec.
  by rewrite localRead_hasLocalEntry.
Qed.

Lemma addressInherited_Own (signedMessages : SignedMessages) (address : string)
    (history : AddressHistory) :
  get signedMessages address = Some history →
  addressInherited signedMessages address = false.
Proof. intros H. unfold addressInherited. by rewrite (readProperty_Own _ _ _ H). Qed.

Lemma addressInherited_ordinary (signedMessages : SignedMessages) (address : string) :
  inheritedKey address = false →
  addressInherited signedMessages address = false.
Proof.
  intros H. unfold addressInherited, readProperty.
  destruct (get signedMessages address); [done | by rewrite H].
Qed.

(** For an address and a domain that name no inherited property the
    assessment returns the surviving phishing finding, then the replay
    finding of the description. *)
Lemma checkMessageBeforeSign_ordinary (messageInfo : MessageInfo)
    (signedMessages : SignedMessages) (globalFingerprints : GlobalFingerprints) :
  addressInherited signedMessages (address messageInfo) = false →
  inheritedKey (domain messageInfo) = false →
  checkMessageBeforeSign messageInfo signedMessages globalFingerprints
  = Ok (phishingFinding messageInfo signedMessages globalFingerprints
        ++ replayFinding messageInfo signedMessages globalFingerprints).
Proof.
  intros Haddr Hdom. rewrite checkMessageBeforeSign_result, Haddr.
  by rewrite replayAppended_replayFinding.
Qed.

Lemma dangerTrigger_spec (messageInfo : MessageInfo) (signedMessages : SignedMessages) :
  dangerTrigger messageInfo signedMessages = true
  ↔ ∃ history d f2,
      get signedMessages (address messageInfo) = Some history ∧
      d ≠ domain messageInfo ∧
      get (localFingerprints history) d = Some f2 ∧
      compareFingerprint (fingerprint messageInfo) f2 = true.
Proof.
  unfold dangerTrigger.
  destruct (get signedMessages (address messageInfo)) as [history|].
  - rewrite someOtherMatches_spec. split.
    + intros (d & f2 & H). by exists history, d, f2.
    + intros (h & d & f2 & [= <-] & H). by exists d, f2.
  - split; [done | by intros (h & d & f2 & ? & _)].
Qed.

Lemma warningTrigger_spec (messageInfo : MessageInfo)
    (globalFingerprints : GlobalFingerprints) :
  warningTrigger messageInfo globalFingerprints = true
  ↔ ∃ d f2,
      d ≠ domain messageInfo ∧
      get globalFingerprints d = Some f2 ∧
      compareFingerprint (fingerprint messageInfo) f2 = true.
Proof. apply someOtherMatches_spec. Qed.

Lemma phishingOf_findings (messageInfo : MessageInfo) (signedMessages : SignedMessages)
    (globalFingerprints : GlobalFingerprints) :
  phishingOf (phishingFinding messageInfo signedMessages globalFingerprints
              ++ replayAppended messageInfo signedMessages globalFingerprints)
  = phishingFinding messageInfo signedMessages globalFingerprints.
Proof.
  unfold phishingFinding, replayAppended. case_conditions; reflexivity.
Qed.

(** C1: the assessment throws [TypeError], and nothing else, exactly when
    the signer's address names a property that [signedMessages] inherits
    and does not own; every list it returns holds at most one finding
    titled 'Phishing Attack', whose severity is 'danger' if the signer has
    local history in which another domain's fingerprint matches, else
    'warning' if another domain's global fingerprint matches, else 'info'
    if the domain does not occur in the message text, letter case ignored;
    no phishing finding of a lower severity stays in the list. *)
Theorem checkMessageBeforeSign_one_phishing (messageInfo : MessageInfo)
    (signedMessages : SignedMessages) (globalFingerprints : GlobalFingerprints) :
  match checkMessageBeforeSign messageInfo signedMessages globalFingerprints with
  | Ok risks =>
      addressInherited signedMessages (address messageInfo) = false ∧
      length (phishingOf risks) ≤ 1 ∧
      map severity (phishingOf risks)
      = option_list (phishingSeverity messageInfo signedMessages globalFingerprints)
  | Throw e =>
      e = TypeError ∧
      addressInherited signedMessages (address messageInfo) = true
  end.
Proof.
  rewrite checkMessageBeforeSign_result.
  destruct (addressInherited signedMessages (address messageInfo)); [done |].
  split; [done |].
  rewrite phishingOf_findings. unfold phishingFinding, phishingSeverity.
  case_conditions; cbn; split; (lia || done).
Qed.

(** C3: a signer with history at bank.com only is asked by the domain
    'constructor', whose published fingerprint differs from the message in
    one token.  The signer has no local fingerprint entry for this domain
    and the global scan finds no other domain, so that [nonceInMsg] as
    described is false and the replay finding is due; the assessment reads
    [localFingerprints[domain]], finds the inherited property, takes the
    branch of the local entry and returns no finding at all.  A signer
    whose address is 'constructor' gets no list: the same read throws. *)
Theorem replay_inherited_domain :
  let globalFingerprints : GlobalFingerprints :=
    [("constructor", ["login"; " "; "77"; " "; "at"; " "; "constructor"])] in
  let signedMessages : SignedMessages :=
    [("0xABC", {| localFingerprints := [("bank.com", ["pay"; " "; "me"])];
                  localMessages := [] |})] in
  ∃ messageInfo : MessageInfo,
    createMessageInfo 9
      {| req_address := "0xABC";
         req_message := "login 78 at constructor";
         req_domain := "constructor";
         req_web3Name := "site" |} globalFingerprints = Ok messageInfo ∧
    fingerprint messageInfo = ["login"; " "; NONCE; " "; "at"; " "; "constructor"] ∧
    get signedMessages (address messageInfo)
    = Some {| localFingerprints := [("bank.com", ["pay"; " "; "me"])];
              localMessages := [] |} ∧
    get [("bank.com", ["pay"; " "; "me"])] (domain messageInfo) = None ∧
    hasLocalEntry signedMessages (address messageInfo) (domain messageInfo) = false ∧
    firstMatchingDomain globalFingerprints (domain messageInfo) (fingerprint messageInfo)
    = None ∧
    nonceInMsg_spec messageInfo signedMessages globalFingerprints = false ∧
    checkMessageBeforeSign messageInfo signedMessages globalFingerprints = Ok [] ∧
    checkMessageBeforeSign
      {| address := "constructor"; message := message messageInfo;
         createdAt := createdAt messageInfo; domain := domain messageInfo;
         web3Name := web3Name messageInfo; fingerprint := fingerprint messageInfo |}
      [] globalFingerprints
    = Throw TypeError.
Proof. cbv zeta. eexists. repeat split; reflexivity. Qed.

(** C9: the message "Sign in to example.com with nonce abc123" for the
    domain example.com, assessed against an empty history and an empty
    global table, gets exactly one finding, the info-level replay finding,
    and no phishing finding; for a signer whose address names a property
    every object inherits the assessment throws [TypeError] instead. *)
Theorem example_com_scenario (now : Z) (address web3Name : string) :
  ∃ messageInfo,
    createMessageInfo now
      {| req_address := address;
         req_message := "Sign in to example.com with nonce abc123";
         req_domain := "example.com";
         req_web3Name := web3Name |} [] = Ok messageInfo ∧
    checkMessageBeforeSign messageInfo [] []
    = (if inheritedKey address then Throw TypeError else Ok [infoReplay]) ∧
    severity infoReplay = "info" ∧
    title infoReplay = "Replay Attack" ∧
    phishingOf [infoReplay] = [].
Proof.
  eexists. split; [reflexivity |]. split; [|done].
  rewrite checkMessageBeforeSign_result.
  unfold addressInherited, readProperty. cbn [get].
  destruct (inheritedKey _); [reflexivity | by vm_compute].
Qed.

Lemma indexOf_empty (s : string) : indexOf s EmptyString = 0%Z.
Proof. unfold indexOf. by destruct s. Qed.

(** C10: with the empty string as domain the domain-absence check cannot
    fire, since the empty string is found at index 0 of every message:
    no assessment then returns an info-level phishing finding, and the
    assessment throws [TypeError], and nothing else, exactly when the
    signer's address names a property that [signedMessages] inherits and
    does not own; the warning-level and the danger-level phishing findings
    are still produced for suitable tables. *)
Theorem empty_domain_no_info_phishing :
  (∀ (messageInfo : MessageInfo) (signedMessages : SignedMessages)
     (globalFingerprints : GlobalFingerprints),
     domain messageInfo = EmptyString →
     indexOf (toLowerCase (message messageInfo)) (toLowerCase (domain messageInfo)) = 0%Z ∧
     match checkMessageBeforeSign messageInfo signedMessages globalFingerprints with
     | Ok risks =>
         addressInherited signedMessages (address messageInfo) = false ∧
         ∀ r, r ∈ risks → title r = "Phishing Attack" → severity r ≠ "info"
     | Throw e =>
         e = TypeError ∧
         addressInherited signedMessages (address messageInfo) = true
     end) ∧
  (∃ messageInfo signedMessages globalFingerprints risks r,
     domain messageInfo = EmptyString ∧
     checkMessageBeforeSign messageInfo signedMessages globalFingerprints = Ok risks ∧
     r ∈ risks ∧ title r = "Phishing Attack" ∧ severity r = "warning") ∧
  (∃ messageInfo signedMessages globalFingerprints risks r,
     domain messageInfo = EmptyString ∧
     checkMessageBeforeSign messageInfo signedMessages globalFingerprints = Ok risks ∧
     r ∈ risks ∧ title r = "Phishing Attack" ∧ severity r = "danger").
Proof.
  split; [|split].
  - intros messageInfo signedMessages globalFingerprints Hdom.
    assert (indexOf (toLowerCase (message messageInfo))
              (toLowerCase (domain messageInfo)) = 0%Z) as Hidx.
    { rewrite Hdom. apply indexOf_empty. }
    split; [done |].
    rewrite checkMessageBeforeSign_result.
    destruct (addressInherited signedMessages (address messageInfo)); [done |].
    split; [done |].
    unfold phishingFinding, replayAppended, domainInMessage. rewrite Hidx.
    intros r Hin Htitle. revert Hin. cbn [Z.eqb negb].
    case_conditions; cbn; intros Hin;
      repeat (apply elem_of_cons in Hin as [-> | Hin]; [done |]);
      by apply elem_of_nil in Hin.
  - exists {| address := "0xA"; message := "login 77"; createdAt := 0;
              domain := EmptyString; web3Name := "site";
              fingerprint := ["login"; " "; "77"] |},
           [], [("site-a.com", ["login"; " "; "_nonce_"])].
    eexists _, _. split; [done |]. split; [reflexivity |].
    split; [left | done].
  - exists {| address := "0xA"; message := "login 77"; createdAt := 0;
              domain := EmptyString; web3Name := "site";
              fingerprint := ["login"; " "; "77"] |},
           [("0xA", {| localFingerprints := [("bank.com", ["login"; " "; "_nonce_"])];
                       localMessages := [] |})],
           [].
    eexists _, _. split; [done |]. split; [reflexivity |].
    split; [left | done].
Qed.

(** ** Further properties of [compareFingerprint] *)

Lemma compareWords_refl (f : Fingerprint) : compareWords f f = true.
Proof.
  induction f as [|word f IH]; [done |].
  cbn [compareWords]. rewrite String.eqb_refl. cbn [negb]. by destruct (_ || _).
Qed.

Lemma compareFingerprint_refl (f : Fingerprint) : compareFingerprint f f = true.
Proof. unfold compareFingerprint. rewrite Nat.eqb_refl. apply compareWords_refl. Qed.

Lemma compareWords_sym (a : Fingerprint) :
  ∀ b : Fingerprint, compareWords a b = compareWords b a.
Proof.
  induction a as [|word1 a IH]; intros [|word2 b]; try done.
  cbn [compareWords]. rewrite (orb_comm (String.eqb word1 NONCE)).
  rewrite (String.eqb_sym word1 word2), (IH b). done.
Qed.

Lemma compareFingerprint_sym (a b : Fingerprint) :
  compareFingerprint a b = compareFingerprint b a.
Proof.
  unfold compareFingerprint. rewrite (Nat.eqb_sym (length a)).
  by rewrite compareWords_sym.
Qed.

(** ** Scenarios *)

(** An address that signed the template for bank.com is asked by evil.com
    to sign a message with a matching fingerprint. *)
Example known_victim_scenario :
  checkMessageBeforeSign
    {| address := "0xABC"; message := "login 77"; createdAt := 1;
       domain := "evil.com"; web3Name := "evil";
       fingerprint := ["login"; " "; "77"] |}
    [("0xABC", {| localFingerprints := [("bank.com", ["login"; " "; "_nonce_"])];
                  localMessages := [] |})]
    [("bank.com", ["login"; " "; "_nonce_"])]
  = Ok [dangerPhishing "evil.com" ["bank.com"]].
Proof. reflexivity. Qed.

(** Two sites share a template and the address has no history. *)
Example shared_template_scenario :
  checkMessageBeforeSign
    {| address := "0xABC"; message := "login to siteB.com"; createdAt := 1;
       domain := "siteB.com"; web3Name := "B";
       fingerprint := ["login"; " "; "to"; " "; "_nonce_"] |}
    []
    [("siteA.com", ["login"; " "; "to"; " "; "_nonce_"]);
     ("siteB.com", ["login"; " "; "to"; " "; "_nonce_"])]
  = Ok [warningPhishing ["siteA.com"]].
Proof. reflexivity. Qed.

(** ** Concrete instances *)

(** Two sign-in messages of one template that differ in the nonce word. *)
Lemma generateFingerprint_positionwise_witness :
  let m1 := Str "login nonce 123" in
  let m2 := Str "login nonce 456" in
  let ws1 := ["login"; " "; "nonce"; " "; "123"] in
  let ws2 := ["login"; " "; "nonce"; " "; "456"] in
  (toWords m1 = Ok ws1 ∧ toWords m2 = Ok ws2 ∧ length ws1 = length ws2 ∧
   4 < length ws1 ∧ ws1 !! 4 ≠ ws2 !! 4 ∧ (∀ j, j ≠ 4 → ws1 !! j = ws2 !! j)) ∧
  generateFingerprint [m1; m2] = Ok ["login"; " "; "nonce"; " "; "_nonce_"] ∧
  ∃ fp, generateFingerprint [m1; m2] = Ok fp ∧ length fp = 5 ∧ fp !! 4 = Some NONCE.
Proof.
  intros m1 m2 ws1 ws2.
  assert (∀ j, j ≠ 4 → ws1 !! j = ws2 !! j) as Hsame.
  { intros [|[|[|[|[|j]]]]] Hj; try reflexivity. contradiction. }
  assert (ws1 !! 4 ≠ ws2 !! 4) as Hdiff by discriminate.
  split; [|split].
  - repeat split; try reflexivity; try assumption. cbn. lia.
  - apply (proj2 generateFingerprint_positionwise m1 m2 ws1 ws2 4);
      try reflexivity; try assumption. cbn. lia.
  - destruct (proj1 generateFingerprint_positionwise [m1; m2] [ws1; ws2] 5)
      as (fp & Hfp & Hlen & _ & Hnonce).
    + repeat constructor.
    + cbn. lia.
    + intros ws Hin. apply elem_of_cons in Hin as [-> | Hin]; [reflexivity |].
      apply list_elem_of_singleton in Hin as ->. reflexivity.
    + exists fp. split; [exact Hfp |]. split; [exact Hlen |].
      apply Hnonce; [lia |]. intros [word Hword].
      pose proof (Hword ws1 ltac:(left)) as H1.
      pose proof (Hword ws2 ltac:(right; left)) as H2.
      apply Hdiff. by rewrite H1, H2.
Defined.

(** A message and a stored fingerprint of another length. *)
Lemma generateFingerprint_failures_witness :
  let messageList := [Str "login 77"; Arr ["login"]] in
  let messages_words := [["login"; " "; "77"]; ["login"]] in
  Forall2 (fun m ws => toWords m = Ok ws) messageList messages_words ∧
  ¬ sameLength messages_words ∧
  generateFingerprint messageList = Throw LengthMismatch.
Proof.
  intros messageList messages_words.
  assert (Forall2 (fun m ws => toWords m = Ok ws) messageList messages_words) as H
    by repeat constructor.
  assert (¬ sameLength messages_words) as Hns.
  { intros Hs. specialize (Hs ["login"; " "; "77"] ["login"]).
    discriminate Hs; [left | right; left]. }
  split; [exact H |]. split; [exact Hns |].
  apply (proj1 (proj2 (generateFingerprint_failures messageList messages_words H))).
  split; [cbn; lia | exact Hns].
Defined.

(** Masking the last word of a matching fingerprint. *)
Lemma compareFingerprint_mask_monotone_witness :
  let a := ["login"; " "; "123"] in
  let b := ["login"; " "; "123"] in
  let positions := fun i => Nat.eqb i 2 in
  length a = length b ∧
  compareFingerprint a b = true ∧
  maskNonce positions b = ["login"; " "; "_nonce_"] ∧
  compareFingerprint a (maskNonce positions b) = true.
Proof.
  intros a b positions.
  split; [reflexivity |]. split; [reflexivity |]. split; [reflexivity |].
  apply (proj1 compareFingerprint_mask_monotone a b positions); reflexivity.
Defined.

(** The site example.com changed its template from one word to three. *)
Lemma createMessageInfo_never_fails_witness :
  let msg := {| req_address := "0xABC"; req_message := "Sign in 42";
                req_domain := "example.com"; req_web3Name := "example" |} in
  let table := [("example.com", ["Sign"])] in
  (get table (req_domain msg) = Some ["Sign"] ∧
   length ["Sign"] ≠ length (splitWhitespace (replaceAddress (req_message msg)))) ∧
  generateFingerprint [Str (req_message msg); Arr ["Sign"]] = Throw LengthMismatch ∧
  ∃ messageInfo,
    createMessageInfo 0 msg table = Ok messageInfo ∧
    generateFingerprint [Str (req_message msg)] = Ok (fingerprint messageInfo) ∧
    fingerprint messageInfo = splitWhitespace (replaceAddress (req_message msg)).
Proof.
  intros msg table.
  assert (length ["Sign"] ≠ length (splitWhitespace (replaceAddress (req_message msg))))
    as Hlen by (vm_compute; discriminate).
  split; [split; [reflexivity | exact Hlen] |].
  apply (proj2 (createMessageInfo_never_fails 0 msg table) ["Sign"]);
    [reflexivity | exact Hlen].
Defined.

(** A request that names no domain. *)
Lemma empty_domain_no_info_phishing_witness :
  let messageInfo := {| address := "0xABC"; message := "login 77"; createdAt := 0;
                        domain := EmptyString; web3Name := "site";
                        fingerprint := ["login"; " "; "77"] |} in
  domain messageInfo = EmptyString ∧
  indexOf (toLowerCase (message messageInfo)) (toLowerCase (domain messageInfo)) = 0%Z ∧
  match checkMessageBeforeSign messageInfo [] [] with
  | Ok risks =>
      addressInherited [] (address messageInfo) = false ∧
      ∀ r, r ∈ risks → title r = "Phishing Attack" → severity r ≠ "info"
  | Throw e => e = TypeError ∧ addressInherited [] (address messageInfo) = true
  end.
Proof.
  intros messageInfo. split; [reflexivity |].
  apply (proj1 empty_domain_no_info_phishing messageInfo [] []). reflexivity.
Defined.

(** ** Property assignment: lookups after an assignment *)

Section AssignmentFacts.
Context {K V : Type} (eqb : K → K → bool) (index : K → option N).
Hypothesis eqb_eq : ∀ a b : K, eqb a b = true ↔ a = b.

Lemma eqb_same (a : K) : eqb a a = true.
Proof. by apply eqb_eq. Qed.

Lemma eqb_other (a b : K) : a ≠ b → eqb a b = false.
Proof. intros Hne. destruct (eqb a b) eqn:He; [|done]. by apply eqb_eq in He. Qed.

Lemma lookup_by_keys (o : list (K * V)) (k : K) :
  k ∈ map fst o ↔ is_Some (lookup_by eqb o k).
Proof.
  induction o as [|[k' v] o IH]; cbn.
  - split; [by intros ?%elem_of_nil | by intros [? ?]].
  - rewrite elem_of_cons, IH. destruct (eqb k' k) eqn:He.
    + apply eqb_eq in He as ->. split; [eauto | by left].
    + split; [|by right]. intros [-> | ?]; [|done].
      by rewrite eqb_same in He.
Qed.

Lemma keys_replaceValue (o : list (K * V)) (k : K) (v : V) :
  map fst (replaceValue eqb o k v) = map fst o.
Proof.
  induction o as [|[k' v'] o IH]; [done |].
  cbn. destruct (eqb k' k); cbn; [done | by rewrite IH].
Qed.

Lemma lookup_replaceValue_eq (o : list (K * V)) (k : K) (v : V) :
  is_Some (lookup_by eqb o k) → lookup_by eqb (replaceValue eqb o k v) k = Some v.
Proof.
  induction o as [|[k' v'] o IH]; cbn; [by intros [? ?] |].
  destruct (eqb k' k) eqn:He; cbn; rewrite He; [done | exact IH].
Qed.

Lemma lookup_replaceValue_ne (o : list (K * V)) (k k' : K) (v : V) :
  k ≠ k' → lookup_by eqb (replaceValue eqb o k v) k' = lookup_by eqb o k'.
Proof.
  intros Hne. induction o as [|[k0 v0] o IH]; [done |].
  cbn. destruct (eqb k0 k) eqn:He; cbn.
  - apply eqb_eq in He as ->. by rewrite eqb_other.
  - by rewrite IH.
Qed.

Lemma keys_insertIndex (n : N) (k : K) (v : V) (o : list (K * V)) :
  map fst (insertIndex index n k v o) ≡ₚ k :: map fst o.
Proof.
  induction o as [|[k' v'] o IH]; [done |].
  cbn. destruct (index k') as [n'|]; [|done].
  destruct (n' <? n)%N; [|done].
  cbn. rewrite IH. apply Permutation_swap.
Qed.

Lemma lookup_insertIndex_eq (n : N) (k : K) (v : V) (o : list (K * V)) :
  lookup_by eqb o k = None → lookup_by eqb (insertIndex index n k v o) k = Some v.
Proof.
  induction o as [|[k' v'] o IH]; cbn.
  - intros _. by rewrite eqb_same.
  - destruct (eqb k' k) eqn:He; [done |]. intros Hnone.
    destruct (index k') as [n'|]; [destruct (n' <? n)%N |]; cbn;
      rewrite ?He, ?eqb_same; auto.
Qed.

Lemma lookup_insertIndex_ne (n : N) (k k' : K) (v : V) (o : list (K * V)) :
  k ≠ k' → lookup_by eqb (insertIndex index n k v o) k' = lookup_by eqb o k'.
Proof.
  intros Hne. induction o as [|[k0 v0] o IH]; cbn.
  - by rewrite eqb_other.
  - destruct (index k0) as [n'|]; [destruct (n' <? n)%N |]; cbn;
      rewrite ?(eqb_other k k') by done; [by rewrite IH | done | done].
Qed.

Lemma lookup_append_eq (o : list (K * V)) (k : K) (v : V) :
  lookup_by eqb o k = None → lookup_by eqb (o ++ [(k, v)]) k = Some v.
Proof.
  induction o as [|[k' v'] o IH]; cbn.
  - intros _. by rewrite eqb_same.
  - destruct (eqb k' k); [done | exact IH].
Qed.

Lemma lookup_append_ne (o : list (K * V)) (k k' : K) (v : V) :
  k ≠ k' → lookup_by eqb (o ++ [(k, v)]) k' = lookup_by eqb o k'.
Proof.
  intros Hne. induction o as [|[k0 v0] o IH]; cbn.
  - by rewrite eqb_other.
  - by rewrite IH.
Qed.

(** Reading the property just assigned gives the assigned value. *)
Lemma lookup_assign_eq (o : list (K * V)) (k : K) (v : V) :
  lookup_by eqb (assign eqb index o k v) k = Some v.
Proof.
  unfold assign. destruct (lookup_by eqb o k) as [u|] eqn:Hk.
  - apply lookup_replaceValue_eq. by rewrite Hk.
  - destruct (index k); [by apply lookup_insertIndex_eq | by apply lookup_append_eq].
Qed.

(** Every other property keeps its value. *)
Lemma lookup_assign_ne (o : list (K * V)) (k k' : K) (v : V) :
  k ≠ k' → lookup_by eqb (assign eqb index o k v) k' = lookup_by eqb o k'.
Proof.
  intros Hne. unfold assign. destruct (lookup_by eqb o k) as [u|].
  - by apply lookup_replaceValue_ne.
  - destruct (index k); [by apply lookup_insertIndex_ne | by apply lookup_append_ne].
Qed.

(** An assignment to an existing property leaves the enumeration order
    alone; a new property adds its key and no other. *)
Lemma keys_assign (o : list (K * V)) (k : K) (v : V) :
  match lookup_by eqb o k with
  | Some _ => map fst (assign eqb index o k v) = map fst o
  | None => map fst (assign eqb index o k v) ≡ₚ k :: map fst o
  end.
Proof.
  unfold assign. destruct (lookup_by eqb o k) as [u|].
  - apply keys_replaceValue.
  - destruct (index k); [apply keys_insertIndex |].
    rewrite map_app. cbn. by rewrite Permutation_app_comm.
Qed.

Lemma NoDup_keys_assign (o : list (K * V)) (k : K) (v : V) :
  NoDup (map fst o) → NoDup (map fst (assign eqb index o k v)).
Proof.
  intros Hnd. pose proof (keys_assign o k v) as Hkeys.
  destruct (lookup_by eqb o k) as [u|] eqn:Hk.
  - by rewrite Hkeys.
  - rewrite Hkeys. apply NoDup_cons. split; [|done].
    intros Hin%lookup_by_keys. rewrite Hk in Hin. by destruct Hin.
Qed.

End AssignmentFacts.

Example setProperty_order :
  keys (setProperty (setProperty (setProperty (setProperty [] "b.com" 1) "10" 2) "a.com" 3) "9" 4)
  = ["9"; "10"; "b.com"; "a.com"].
Proof. reflexivity. Qed.

Example setProperty_in_place :
  setProperty [("a.com", 1); ("b.com", 2)] "a.com" 3 = [("a.com", 3); ("b.com", 2)].
Proof. reflexivity. Qed.

Lemma get_lookup_by {V : Type} (o : JSObject V) (k : string) :
  get o k = lookup_by String.eqb o k.
Proof. induction o as [|[k' v] o IH]; [done |]. cbn. by rewrite IH. Qed.

Lemma get_setProperty_eq {V : Type} (o : JSObject V) (k : string) (v : V) :
  get (setProperty o k v) k = Some v.
Proof. rewrite get_lookup_by. apply lookup_assign_eq, String.eqb_eq. Qed.

Lemma get_setProperty_ne {V : Type} (o : JSObject V) (k k' : string) (v : V) :
  k ≠ k' → get (setProperty o k v) k' = get o k'.
Proof. intros Hne. rewrite !get_lookup_by. by apply lookup_assign_ne; [apply String.eqb_eq |]. Qed.

Lemma get_replaceValue_eq {V : Type} (o : JSObject V) (k : string) (v : V) :
  is_Some (get o k) → get (replaceValue String.eqb o k v) k = Some v.
Proof. rewrite !get_lookup_by. apply lookup_replaceValue_eq. Qed.

Lemma get_replaceValue_ne {V : Type} (o : JSObject V) (k k' : string) (v : V) :
  k ≠ k' → get (replaceValue String.eqb o k v) k' = get o k'.
Proof. intros Hne. rewrite !get_lookup_by. by apply lookup_replaceValue_ne; [apply String.eqb_eq |]. Qed.

(** ** [compareFingerprint]: position by position *)

Lemma compareWords_cons (word1 word2 : string) (r1 r2 : Fingerprint) :
  compareWords (word1 :: r1) (word2 :: r2) = true
  ↔ wordsAgree word1 word2 ∧ compareWords r1 r2 = true.
Proof.
  cbn [compareWords]. unfold wordsAgree.
  destruct (String.eqb_spec word1 NONCE) as [-> | H1]; cbn [orb].
  { split; [intros H; split; [by left | done] | by intros [_ H]]. }
  destruct (String.eqb_spec word2 NONCE) as [-> | H2]; cbn [orb].
  { split; [intros H; split; [by right; left | done] | by intros [_ H]]. }
  destruct (String.eqb_spec word1 word2) as [-> | H3]; cbn [negb].
  { split; [intros H; split; [by right; right | done] | by intros [_ H]]. }
  split; [done |]. intros [[? | [? | ?]] _]; done.
Qed.

(** The comparison holds exactly when the lengths are equal and the words
    agree at every position. *)
Lemma compareFingerprint_lookup (f1 f2 : Fingerprint) :
  compareFingerprint f1 f2 = true
  ↔ length f1 = length f2 ∧
    ∀ i word1 word2, f1 !! i = Some word1 → f2 !! i = Some word2 → wordsAgree word1 word2.
Proof.
  unfold compareFingerprint.
  destruct (Nat.eqb_spec (length f1) (length f2)) as [Hlen | Hlen]; cbn [negb];
    [|split; [done | by intros [? _]]].
  split.
  - intros Hcmp. split; [done |]. clear Hlen.
    revert f2 Hcmp. induction f1 as [|w1 f1 IH]; intros [|w2 f2] Hcmp i word1 word2 H1 H2;
      try done.
    apply compareWords_cons in Hcmp as [Hw Hcmp].
    destruct i as [|i]; cbn in H1, H2.
    + by injection H1 as <-; injection H2 as <-.
    + by apply (IH f2 Hcmp i).
  - intros [_ Hpos]. revert f2 Hlen Hpos.
    induction f1 as [|w1 f1 IH]; intros [|w2 f2] Hlen Hpos; try done.
    apply compareWords_cons. split.
    + by apply (Hpos 0).
    + apply IH; [by injection Hlen |].
      intros i word1 word2 H1 H2. by apply (Hpos (S i)).
Qed.

(** X2: fingerprints without placeholder compare equal exactly when they
    are the same token sequence. *)
Theorem compareFingerprint_literal (a b : Fingerprint) :
  (NONCE ∉ a) → (NONCE ∉ b) → (compareFingerprint a b = true ↔ a = b).
Proof.
  intros Ha Hb. split; [|intros ->; apply compareFingerprint_refl].
  intros [Hlen Hpos]%compareFingerprint_lookup.
  apply list_eq_same_length with (length a); [done | done |].
  intros i word1 word2 _ H1 H2.
  destruct (Hpos i word1 word2 H1 H2) as [-> | [-> | ->]]; [| |done].
  - exfalso. apply Ha. by eapply list_elem_of_lookup_2.
  - exfalso. apply Hb. by eapply list_elem_of_lookup_2.
Qed.

Lemma compareFingerprint_literal_witness :
  let a := ["login"; " "; "77"] in
  let b := ["login"; " "; "78"] in
  ((NONCE ∉ a) ∧ (NONCE ∉ b)) ∧ (compareFingerprint a b = true ↔ a = b).
Proof.
  intros a b.
  assert (NONCE ∉ a) as Ha.
  { intros Hin. repeat (apply elem_of_cons in Hin as [Hin | Hin]; [discriminate Hin |]).
    by apply elem_of_nil in Hin. }
  assert (NONCE ∉ b) as Hb.
  { intros Hin. repeat (apply elem_of_cons in Hin as [Hin | Hin]; [discriminate Hin |]).
    by apply elem_of_nil in Hin. }
  split; [by split |]. exact (compareFingerprint_literal a b Ha Hb).
Defined.

(** X3: the comparison chains through a fingerprint without placeholder,
    and it does not chain through placeholders. *)
Theorem compareFingerprint_chain :
  (∀ a b c : Fingerprint,
     (NONCE ∉ b) →
     compareFingerprint a b = true →
     compareFingerprint b c = true →
     compareFingerprint a c = true) ∧
  (∃ a b c : Fingerprint,
     compareFingerprint a b = true ∧
     compareFingerprint b c = true ∧
     compareFingerprint a c = false).
Proof.
  split.
  - intros a b c Hb [Hab Hpab]%compareFingerprint_lookup [Hbc Hpbc]%compareFingerprint_lookup.
    apply compareFingerprint_lookup. split; [congruence |].
    intros i wa wc Ha Hc.
    destruct (lookup_lt_is_Some_2 b i) as [wb Hwb].
    { rewrite <- Hab. by eapply lookup_lt_Some. }
    assert (wb ≠ NONCE) as Hne.
    { intros ->. apply Hb. by eapply list_elem_of_lookup_2. }
    destruct (Hpab i wa wb Ha Hwb) as [-> | [-> | ->]]; [by left | done |].
    destruct (Hpbc i wb wc Hwb Hc) as [-> | [-> | ->]]; [done | by right; left |].
    by right; right.
  - by exists ["77"], [NONCE], ["78"].
Qed.

Lemma compareFingerprint_chain_witness :
  let a := ["login"; " "; NONCE] in
  let b := ["login"; " "; "77"] in
  let c := [NONCE; " "; "77"] in
  (NONCE ∉ b) ∧ compareFingerprint a b = true ∧ compareFingerprint b c = true ∧
  compareFingerprint a c = true.
Proof.
  intros a b c.
  assert (NONCE ∉ b) as Hb.
  { intros Hin. repeat (apply elem_of_cons in Hin as [Hin | Hin]; [discriminate Hin |]).
    by apply elem_of_nil in Hin. }
  split; [exact Hb |]. split; [reflexivity |]. split; [reflexivity |].
  apply (proj1 compareFingerprint_chain a b c Hb); reflexivity.
Defined.

(** ** [generateFingerprint]: the inferred fingerprint and its inputs *)

Lemma generateFingerprint_inferred_words (messageList : list Message)
    (messages_words : list (list string)) :
  Forall2 (fun m ws => toWords m = Ok ws) messageList messages_words →
  generateFingerprint messageList = inferred messages_words.
Proof. apply generateFingerprint_words. Qed.

Lemma inferred_lookup_Ok (wss : list (list string)) (fp : list string) :
  inferred wss = Ok fp →
  ∃ first,
    head wss = Some first ∧
    (∀ ws, ws ∈ wss → length ws = length fp) ∧
    ∀ i, fp !! i =
         match first !! i with
         | Some word => Some (if every (wordAt_eq i word) wss then word else NONCE)
         | None => None
         end.
Proof.
  destruct wss as [|first [|ws' wss]]; [done | |].
  - intros [= <-]. exists first. split; [done |]. split.
    + by intros ws ->%list_elem_of_singleton.
    + intros i. destruct (first !! i) as [word|] eqn:Hw; [|done].
      assert (every (wordAt_eq i word) [first] = true) as ->; [|done].
      apply every_wordAt_eq. by intros ws ->%list_elem_of_singleton.
  - cbn [inferred]. destruct (some _ _) eqn:Hsome; [done |]. intros [= <-].
    exists first. split; [done |]. split.
    + intros ws Hin. rewrite length_imap.
      by apply (proj1 (some_length_differs first (first :: ws' :: wss)) Hsome).
    + intros i. apply (inferred_lookup first (first :: ws' :: wss) i). left.
Qed.

(** A position at which all inputs hold one word keeps that word. *)
Lemma inferred_agree (wss : list (list string)) (fp : list string) (i : nat) (word : string) :
  inferred wss = Ok fp →
  (∀ ws, ws ∈ wss → ws !! i = Some word) →
  fp !! i = Some word.
Proof.
  intros (first & Hhd & _ & Hpos)%inferred_lookup_Ok Hall.
  assert (first ∈ wss) as Hfirst by (destruct wss; [done | injection Hhd as ->; left]).
  rewrite Hpos, (Hall first Hfirst).
  apply every_wordAt_eq in Hall. by rewrite Hall.
Qed.

(** A word of the result is the word of all inputs, or the placeholder. *)
Lemma inferred_word (wss : list (list string)) (fp : list string) (i : nat) (word : string) :
  inferred wss = Ok fp →
  fp !! i = Some word →
  (∀ ws, ws ∈ wss → ws !! i = Some word) ∨ word = NONCE.
Proof.
  intros (first & Hhd & _ & Hpos)%inferred_lookup_Ok Hfp.
  rewrite Hpos in Hfp. destruct (first !! i) as [w|]; [|done].
  destruct (every (wordAt_eq i w) wss) eqn:Hev; injection Hfp as <-; [|by right].
  left. by apply every_wordAt_eq.
Qed.

(** The inferred fingerprint compares equal to every input. *)
Lemma inferred_compare (wss : list (list string)) (fp : list string) (ws : list string) :
  inferred wss = Ok fp → ws ∈ wss → compareFingerprint fp ws = true.
Proof.
  intros Hfp Hin. apply compareFingerprint_lookup.
  destruct (inferred_lookup_Ok _ _ Hfp) as (first & _ & Hlen & _).
  split; [by rewrite (Hlen ws) |].
  intros i word1 word2 H1 H2.
  destruct (inferred_word _ _ i word1 Hfp H1) as [Hall | ->]; [|by left].
  right; right. unfold Fingerprint in *. rewrite (Hall ws Hin) in H2. by injection H2.
Qed.

(** A placeholder of an input is a placeholder of the result. *)
Lemma inferred_keeps_nonce (wss : list (list string)) (fp : list string)
    (ws : list string) (i : nat) :
  inferred wss = Ok fp → ws ∈ wss → ws !! i = Some NONCE → fp !! i = Some NONCE.
Proof.
  intros Hfp Hin Hws.
  destruct (inferred_lookup_Ok _ _ Hfp) as (first & Hhd & Hlen & Hpos).
  assert (first ∈ wss) as Hfirst by (destruct wss; [done | injection Hhd as ->; left]).
  destruct (lookup_lt_is_Some_2 first i) as [word Hword].
  { rewrite (Hlen first Hfirst), <- (Hlen ws Hin). by eapply lookup_lt_Some. }
  rewrite Hpos, Hword.
  destruct (every (wordAt_eq i word) wss) eqn:Hev; [|done].
  rewrite every_wordAt_eq in Hev. rewrite (Hev ws Hin) in Hws. by injection Hws as ->.
Qed.

(** X4: the fingerprint inferred from any number of inputs compares equal
    to the words of every one of them. *)
Theorem generateFingerprint_matches_inputs (messageList : list Message)
    (messages_words : list (list string)) (fp : Fingerprint) :
  Forall2 (fun m ws => toWords m = Ok ws) messageList messages_words →
  generateFingerprint messageList = Ok fp →
  ∀ ws, ws ∈ messages_words → compareFingerprint fp ws = true.
Proof.
  intros H Hfp ws Hin. rewrite (generateFingerprint_inferred_words _ _ H) in Hfp.
  by apply (inferred_compare messages_words).
Qed.

Lemma generateFingerprint_matches_inputs_witness :
  let messageList := [Str "login 77"; Arr ["login"; " "; "78"]] in
  let messages_words := [["login"; " "; "77"]; ["login"; " "; "78"]] in
  let fp := ["login"; " "; NONCE] in
  Forall2 (fun m ws => toWords m = Ok ws) messageList messages_words ∧
  generateFingerprint messageList = Ok fp ∧
  compareFingerprint fp ["login"; " "; "77"] = true ∧
  compareFingerprint fp ["login"; " "; "78"] = true.
Proof.
  intros messageList messages_words fp.
  assert (Forall2 (fun m ws => toWords m = Ok ws) messageList messages_words) as H
    by repeat constructor.
  split; [exact H |]. split; [reflexivity |]. split.
  - apply (generateFingerprint_matches_inputs messageList messages_words fp H eq_refl). left.
  - apply (generateFingerprint_matches_inputs messageList messages_words fp H eq_refl).
    right. left.
Defined.

(** X5: a placeholder in any input stays: the result holds [_nonce_] at
    every position at which some input holds it. *)
Theorem generateFingerprint_keeps_nonce (messageList : list Message)
    (messages_words : list (list string)) (fp : Fingerprint) (i : nat) :
  Forall2 (fun m ws => toWords m = Ok ws) messageList messages_words →
  generateFingerprint messageList = Ok fp →
  ∀ ws, ws ∈ messages_words → ws !! i = Some NONCE → fp !! i = Some NONCE.
Proof.
  intros H Hfp ws Hin Hws. rewrite (generateFingerprint_inferred_words _ _ H) in Hfp.
  by apply (inferred_keeps_nonce messages_words fp ws).
Qed.

Lemma generateFingerprint_keeps_nonce_witness :
  let messageList := [Str "login 77"; Arr ["login"; " "; NONCE]] in
  let messages_words := [["login"; " "; "77"]; ["login"; " "; NONCE]] in
  Forall2 (fun m ws => toWords m = Ok ws) messageList messages_words ∧
  generateFingerprint messageList = Ok ["login"; " "; NONCE] ∧
  ["login"; " "; NONCE] !! 2 = Some NONCE.
Proof.
  intros messageList messages_words.
  assert (Forall2 (fun m ws => toWords m = Ok ws) messageList messages_words) as H
    by repeat constructor.
  split; [exact H |]. split; [reflexivity |].
  apply (generateFingerprint_keeps_nonce messageList messages_words _ 2 H eq_refl
           ["login"; " "; NONCE]); [right; left | reflexivity].
Defined.

Lemma mapM_toWords (messageList : list Message) :
  mapM toWords messageList
  = if existsb isOther messageList then Throw NotStringOrArray
    else Ok (map wordsOf messageList).
Proof.
  induction messageList as [|m ml IH]; [done |].
  change (mapM toWords (m :: ml))
    with (y ← toWords m; ys ← mapM toWords ml; mret (y :: ys)).
  rewrite IH. destruct m; cbn; try done; by destruct (existsb isOther ml).
Qed.

(** [generateFingerprint] by cases on its input list. *)
Lemma generateFingerprint_cases (messageList : list Message) :
  generateFingerprint messageList
  = match messageList with
    | [] => Throw EmptyInput
    | _ =>
        if existsb isOther messageList then Throw NotStringOrArray
        else inferred (map wordsOf messageList)
    end.
Proof.
  destruct messageList as [|m ml]; [done |].
  destruct (existsb isOther (m :: ml)) eqn:Hother.
  - unfold generateFingerprint. rewrite mapM_toWords, Hother. done.
  - apply generateFingerprint_inferred_words, mapM_Ok.
    by rewrite mapM_toWords, Hother.
Qed.

Lemma sameLength_length (wss : list (list string)) (ws : list string) :
  ws ∈ wss → sameLength wss ↔ ∀ ws', ws' ∈ wss → length ws' = length ws.
Proof.
  intros Hin. split.
  - intros Hs ws' Hin'. by apply Hs.
  - intros H ws1 ws2 H1 H2. by rewrite (H ws1), (H ws2).
Qed.

Lemma inferred_cases (wss : list (list string)) :
  (wss = [] ∧ inferred wss = Throw EmptyInput) ∨
  (wss ≠ [] ∧ ¬ sameLength wss ∧ inferred wss = Throw LengthMismatch) ∨
  (wss ≠ [] ∧ sameLength wss ∧ ∃ fp, inferred wss = Ok fp).
Proof.
  destruct wss as [|first [|ws' wss]]; [by left | |].
  - right; right. split; [done |]. split; [|by eexists].
    by intros ws1 ws2 ->%list_elem_of_singleton ->%list_elem_of_singleton.
  - right. cbn [inferred]. destruct (some _ _) eqn:Hsome.
    + left. split; [done |]. split; [|done].
      intros Hs%some_length_sameLength. congruence.
    + right. split; [done |]. split; [|by eexists].
      by apply some_length_sameLength.
Qed.

Lemma inferred_first (wss : list (list string)) (fp : list string) (first : list string)
    (i : nat) (word : string) :
  inferred wss = Ok fp →
  first ∈ wss →
  first !! i = Some word →
  fp !! i = Some (if every (wordAt_eq i word) wss then word else NONCE).
Proof.
  intros Hfp Hfirst Hword.
  destruct (every (wordAt_eq i word) wss) eqn:Hev.
  - apply (inferred_agree wss); [done |]. by apply every_wordAt_eq.
  - destruct (inferred_lookup_Ok _ _ Hfp) as (first' & Hhd & Hlen & Hpos).
    assert (first' ∈ wss) as Hfirst'
      by (destruct wss; [done | injection Hhd as ->; left]).
    destruct (lookup_lt_is_Some_2 first' i) as [word' Hword'].
    { rewrite (Hlen first' Hfirst'), <- (Hlen first Hfirst). by eapply lookup_lt_Some. }
    rewrite Hpos, Hword'.
    destruct (every (wordAt_eq i word') wss) eqn:Hev'; [|done].
    exfalso. pose proof (proj1 (every_wordAt_eq _ _ _) Hev' first Hfirst) as Hw.
    unfold Fingerprint in *. rewrite Hword in Hw. injection Hw as ->. congruence.
Qed.

(** The inferred fingerprint does not depend on the order of the inputs. *)
Lemma inferred_Permutation (wss1 wss2 : list (list string)) :
  wss1 ≡ₚ wss2 → inferred wss1 = inferred wss2.
Proof.
  intros Hperm.
  assert (∀ ws, ws ∈ wss1 ↔ ws ∈ wss2) as Hin by (intros ws; by rewrite Hperm).
  assert (sameLength wss1 ↔ sameLength wss2) as Hsame.
  { unfold sameLength. split; intros H ws1 ws2 H1 H2; apply H; by apply Hin. }
  assert (wss1 = [] ↔ wss2 = []) as Hnil.
  { split; intros ->; [by apply Permutation_nil_l in Hperm
                      | by apply Permutation_nil_r in Hperm]. }
  destruct (inferred_cases wss1) as [[H1 ->] | [(H1 & Hs1 & ->) | (H1 & Hs1 & fp1 & Hfp1)]];
    destruct (inferred_cases wss2) as [[H2 ->] | [(H2 & Hs2 & ->) | (H2 & Hs2 & fp2 & Hfp2)]];
    try done; try tauto.
  rewrite Hfp1, Hfp2. f_equal.
  destruct (inferred_lookup_Ok _ _ Hfp1) as (first1 & Hhd1 & Hlen1 & _).
  destruct (inferred_lookup_Ok _ _ Hfp2) as (first2 & Hhd2 & Hlen2 & _).
  assert (first1 ∈ wss1) as Hf1 by (destruct wss1; [done | injection Hhd1 as ->; left]).
  assert (first2 ∈ wss2) as Hf2 by (destruct wss2; [done | injection Hhd2 as ->; left]).
  assert (length fp1 = length fp2) as Hlen.
  { rewrite <- (Hlen1 first1 Hf1). apply Hlen2. by apply Hin. }
  unfold Fingerprint in *. apply list_eq. intros i.
  destruct (first1 !! i) as [word|] eqn:Hword.
  - rewrite (inferred_first wss1 fp1 first1 i word) by done.
    rewrite (inferred_first wss2 fp2 first1 i word) by (done || by apply Hin).
    assert (every (wordAt_eq i word) wss1 = every (wordAt_eq i word) wss2) as ->; [|done].
    apply eq_true_iff_eq. rewrite !every_wordAt_eq.
    split; intros H ws Hws; apply H; by apply Hin.
  - apply lookup_ge_None in Hword.
    rewrite !(proj2 (lookup_ge_None _ _)); [done | |].
    + rewrite <- Hlen, <- (Hlen1 first1 Hf1). done.
    + rewrite <- (Hlen1 first1 Hf1). done.
Qed.

(** X6: the result of [generateFingerprint], fingerprint or exception, does
    not depend on the order of its inputs. *)
Theorem generateFingerprint_Permutation (messageList1 messageList2 : list Message) :
  messageList1 ≡ₚ messageList2 →
  generateFingerprint messageList1 = generateFingerprint messageList2.
Proof.
  intros Hperm. rewrite !generateFingerprint_cases.
  assert (existsb isOther messageList1 = existsb isOther messageList2) as Hother.
  { apply eq_true_iff_eq. rewrite !existsb_exists.
    split; intros (m & Hin%list_elem_of_In & Hm); exists m; (split; [|done]);
      apply list_elem_of_In; [by rewrite <- Hperm | by rewrite Hperm]. }
  assert (inferred (map wordsOf messageList1) = inferred (map wordsOf messageList2)) as Hinf.
  { apply inferred_Permutation. by rewrite Hperm. }
  destruct messageList1 as [|m1 ml1], messageList2 as [|m2 ml2]; try done.
  - by apply Permutation_nil_l in Hperm.
  - by apply Permutation_nil_r in Hperm.
  - by rewrite Hother, Hinf.
Qed.

Lemma generateFingerprint_Permutation_witness :
  let m1 := Str "login 77" in
  let m2 := Arr ["login"; " "; "78"] in
  [m1; m2] ≡ₚ [m2; m1] ∧
  generateFingerprint [m1; m2] = Ok ["login"; " "; NONCE] ∧
  generateFingerprint [m2; m1] = Ok ["login"; " "; NONCE].
Proof.
  intros m1 m2.
  assert ([m1; m2] ≡ₚ [m2; m1]) as Hperm by apply Permutation_swap.
  split; [exact Hperm |]. split; [reflexivity |].
  rewrite <- (generateFingerprint_Permutation [m1; m2] [m2; m1] Hperm). reflexivity.
Defined.

(** Inferring from one more input and the earlier result is inferring from
    all inputs. *)
Lemma inferred_incremental (wx : list string) (wss : list (list string)) (fp : list string) :
  inferred wss = Ok fp → inferred (wx :: wss) = inferred [wx; fp].
Proof.
  intros Hfp.
  destruct (inferred_lookup_Ok _ _ Hfp) as (first & Hhd & Hlen & _).
  assert (first ∈ wss) as Hfirst by (destruct wss; [done | injection Hhd as ->; left]).
  assert (sameLength (wx :: wss) ↔ sameLength [wx; fp]) as Hsame.
  { rewrite (sameLength_length (wx :: wss) wx), (sameLength_length [wx; fp] wx) by left.
    split.
    - intros H ws' [-> | ->%list_elem_of_singleton]%elem_of_cons; [done |].
      rewrite <- (Hlen first Hfirst). apply H. by right.
    - intros H ws' [-> | Hin]%elem_of_cons; [done |].
      rewrite (Hlen ws' Hin). apply H. right. left. }
  destruct (inferred_cases (wx :: wss))
    as [[H1 _] | [(_ & Hs1 & ->) | (_ & Hs1 & fp1 & Hfp1)]]; [done | |];
    destruct (inferred_cases [wx; fp])
      as [[H2 _] | [(_ & Hs2 & ->) | (_ & Hs2 & fp2 & Hfp2)]]; try done; try tauto.
  rewrite Hfp1, Hfp2. f_equal.
  destruct (inferred_lookup_Ok _ _ Hfp1) as (? & _ & Hlen1 & _).
  destruct (inferred_lookup_Ok _ _ Hfp2) as (? & _ & Hlen2 & _).
  specialize (Hlen1 wx ltac:(left)). specialize (Hlen2 wx ltac:(left)).
  unfold Fingerprint in *. apply list_eq. intros i.
  destruct (wx !! i) as [word|] eqn:Hword.
  - rewrite (inferred_first (wx :: wss) fp1 wx i word) by (done || left).
    rewrite (inferred_first [wx; fp] fp2 wx i word) by (done || left).
    f_equal.
    destruct (every (wordAt_eq i word) (wx :: wss)) eqn:HA,
             (every (wordAt_eq i word) [wx; fp]) eqn:HB; try done.
    + exfalso. rewrite every_wordAt_eq in HA.
      assert (every (wordAt_eq i word) [wx; fp] = true); [|congruence].
      apply every_wordAt_eq.
      intros ws [-> | ->%list_elem_of_singleton]%elem_of_cons; [done |].
      apply (inferred_agree wss); [done |]. intros ws Hin. apply HA. by right.
    + rewrite every_wordAt_eq in HB.
      destruct (inferred_word wss fp i word Hfp) as [Hall | ->]; [| |done].
      { apply HB. right. left. }
      exfalso. assert (every (wordAt_eq i word) (wx :: wss) = true); [|congruence].
      apply every_wordAt_eq. intros ws [-> | Hin]%elem_of_cons; [done | by apply Hall].
  - apply lookup_ge_None in Hword.
    rewrite !(proj2 (lookup_ge_None _ _)); [done | lia | lia].
Qed.

(** X7: inferring from a new input and the fingerprint obtained from
    earlier inputs gives what inferring from all of them at once gives:
    keeping only the latest fingerprint loses nothing. *)
Theorem generateFingerprint_incremental (x : Message) (messageList : list Message)
    (fp : Fingerprint) :
  generateFingerprint messageList = Ok fp →
  generateFingerprint (x :: messageList) = generateFingerprint [x; Arr fp].
Proof.
  rewrite !generateFingerprint_cases. destruct messageList as [|m ml]; [done |].
  destruct (existsb isOther (m :: ml)) eqn:Hother; [done |]. intros Hfp.
  cbn [existsb]. cbn [existsb] in Hother. rewrite Hother. cbn [isOther orb].
  destruct (isOther x); [done |]. cbn [orb].
  apply (inferred_incremental (wordsOf x) (map wordsOf (m :: ml)) fp Hfp).
Qed.

Lemma generateFingerprint_incremental_witness :
  let earlier := [Str "login 77 now"; Str "login 78 now"] in
  let x := Str "login 78 then" in
  generateFingerprint earlier = Ok ["login"; " "; NONCE; " "; "now"] ∧
  generateFingerprint (x :: earlier) = Ok ["login"; " "; NONCE; " "; NONCE] ∧
  generateFingerprint [x; Arr ["login"; " "; NONCE; " "; "now"]]
  = Ok ["login"; " "; NONCE; " "; NONCE].
Proof.
  intros earlier x. split; [reflexivity |]. split; [reflexivity |].
  rewrite <- (generateFingerprint_incremental x earlier
                ["login"; " "; NONCE; " "; "now"] eq_refl).
  reflexivity.
Defined.

(** ** Address replacement: nothing is left to replace *)

Lemma replaceAddress_replaced (s : string) :
  matchAddress s = true → ∃ r, replaceAddress s = String "_" r.
Proof.
  intros Hm. destruct (matchAddress_length s Hm) as (addr & rest & -> & Hlen).
  rewrite replaceAddress_match by done. rewrite append_cons. by eexists.
Qed.

Lemma hexRun_replaceAddress (n : nat) :
  ∀ t : string, hexRun n (replaceAddress t) = true → hexRun n t = true.
Proof.
  induction n as [|n IH]; intros t; [done |].
  destruct t as [|c t]; [done |].
  destruct (matchAddress (String c t)) eqn:Hm.
  - destruct (replaceAddress_replaced _ Hm) as [r ->]. done.
  - rewrite replaceAddress_keep by done. cbn [hexRun].
    intros [Hc Ht]%andb_true_iff. rewrite Hc. by apply IH.
Qed.

Lemma matchAddress_replaceAddress (c : ascii) (s : string) :
  matchAddress (String c (replaceAddress s)) = true → matchAddress (String c s) = true.
Proof.
  intros (r & Heq & Hr)%matchAddress_inv. injection Heq as -> Heq.
  destruct s as [|d s]; [done |].
  destruct (matchAddress (String d s)) eqn:Hm.
  - destruct (replaceAddress_replaced _ Hm) as [r' Hr']. congruence.
  - rewrite replaceAddress_keep in Heq by done. injection Heq as -> <-.
    apply hexRun_replaceAddress in Hr. exact Hr.
Qed.

Lemma noAddress_placeholder (r : string) :
  noAddress r = true → noAddress ("_address_" +:+ r) = true.
Proof. intros Hr. rewrite !append_cons, append_empty_l. cbn. exact Hr. Qed.

Lemma noAddress_replaceAddress_bounded (n : nat) :
  ∀ s : string, String.length s ≤ n → noAddress (replaceAddress s) = true.
Proof.
  induction n as [|n IH]; intros s Hn.
  - destruct s; [done | cbn in Hn; lia].
  - destruct s as [|c s]; [done |].
    destruct (matchAddress (String c s)) eqn:Hm.
    + destruct (matchAddress_length _ Hm) as (addr & rest & Heq & Hlen).
      rewrite Heq in Hm |- *. rewrite replaceAddress_match by done.
      apply noAddress_placeholder, IH.
      assert (String.length (String c s) = 42 + String.length rest) as Hl
        by (by rewrite Heq, length_append, Hlen).
      lia.
    + rewrite replaceAddress_keep by done. cbn [noAddress].
      rewrite IH by (cbn in Hn; lia). rewrite andb_true_r. apply negb_true_iff.
      destruct (matchAddress (String c (replaceAddress s))) eqn:Hr; [|done].
      apply matchAddress_replaceAddress in Hr. congruence.
Qed.

(** After the replacement the pattern matches nowhere. *)
Lemma noAddress_replaceAddress (s : string) : noAddress (replaceAddress s) = true.
Proof. by apply (noAddress_replaceAddress_bounded (String.length s)). Qed.

Lemma hexRun_append (n : nat) :
  ∀ s post : string, hexRun n s = true → hexRun n (s +:+ post) = true.
Proof.
  induction n as [|n IH]; intros s post; [done |].
  destruct s as [|c s]; [done |]. rewrite append_cons. cbn [hexRun].
  intros [Hc Hs]%andb_true_iff. rewrite Hc. by apply IH.
Qed.

Lemma matchAddress_append (s post : string) :
  matchAddress s = true → matchAddress (s +:+ post) = true.
Proof.
  intros (s' & -> & Hs)%matchAddress_inv. rewrite !append_cons.
  by apply (hexRun_append 40).
Qed.

Lemma noAddress_suffix (pre s : string) :
  noAddress (pre +:+ s) = true → noAddress s = true.
Proof.
  induction pre as [|c pre IH]; [done |]. rewrite append_cons. cbn [noAddress].
  intros [_ H]%andb_true_iff. by apply IH.
Qed.

Lemma noAddress_prefix (s post : string) :
  noAddress (s +:+ post) = true → noAddress s = true.
Proof.
  induction s as [|c s IH]; [done |]. rewrite append_cons. cbn [noAddress].
  intros [Hm H]%andb_true_iff. rewrite IH by done. rewrite andb_true_r.
  apply negb_true_iff. apply negb_true_iff in Hm.
  destruct (matchAddress (String c s)) eqn:Hs; [|done].
  apply (matchAddress_append _ post) in Hs. rewrite append_cons in Hs. congruence.
Qed.

(** X8: the address replacement leaves no text that matches the address
    pattern, so that a second replacement changes nothing, and no token
    of the fingerprint of a message text holds an address. *)
Theorem generateFingerprint_no_address (m : string) :
  noAddress (replaceAddress m) = true ∧
  replaceAddress (replaceAddress m) = replaceAddress m ∧
  ∀ fp token,
    generateFingerprint [Str m] = Ok fp → token ∈ fp → noAddress token = true.
Proof.
  split; [apply noAddress_replaceAddress |].
  split; [apply replaceAddress_noAddress, noAddress_replaceAddress |].
  intros fp token [= <-] Hin.
  destruct (concat_elem_Occurs _ _ Hin) as (pre & post & Heq).
  rewrite splitWhitespace_concat in Heq.
  pose proof (noAddress_replaceAddress m) as Hno. rewrite Heq in Hno.
  by apply noAddress_suffix, noAddress_prefix in Hno.
Qed.

Lemma generateFingerprint_no_address_witness :
  let m := "I am 0x00112233445566778899aAbBcCdDeEfF00112233 today" in
  generateFingerprint [Str m] = Ok ["I"; " "; "am"; " "; "_address_"; " "; "today"] ∧
  noAddress "_address_" = true.
Proof.
  intros m. split; [reflexivity |].
  apply (proj2 (proj2 (generateFingerprint_no_address m))
           ["I"; " "; "am"; " "; "_address_"; " "; "today"] "_address_");
    [reflexivity |].
  do 4 right. left.
Defined.

(** ** MessageInfoFactory: the fingerprint of a created record *)

Lemma createMessageInfo_fields (now : Z) (msg : Request)
    (globalFingerprints : GlobalFingerprints) (messageInfo : MessageInfo) :
  createMessageInfo now msg globalFingerprints = Ok messageInfo →
  address messageInfo = req_address msg ∧
  message messageInfo = req_message msg ∧
  createdAt messageInfo = now ∧
  domain messageInfo = req_domain msg ∧
  web3Name messageInfo = req_web3Name msg ∧
  try_catch
    (generateFingerprint
       (Str (req_message msg) ::
        match get globalFingerprints (req_domain msg) with
        | Some stored => [Arr stored]
        | None => []
        end))
    (fun _ => generateFingerprint [Str (req_message msg)])
  = Ok (fingerprint messageInfo).
Proof.
  unfold createMessageInfo, readProperty.
  destruct (get globalFingerprints (req_domain msg)) as [stored|];
    [|destruct (inheritedKey (req_domain msg))]; cbn [push app].
  - destruct (try_catch _ _) as [fp|e]; [|done]. by intros [= <-].
  - change (generateFingerprint [Str (req_message msg); Other])
      with (@Throw Fingerprint NotStringOrArray).
    by intros [= <-].
  - destruct (try_catch _ _) as [fp|e]; [|done]. by intros [= <-].
Qed.

Lemma inferred_pair (ws1 ws2 : list string) :
  length ws1 = length ws2 → ∃ fp, inferred [ws1; ws2] = Ok fp.
Proof.
  intros Hlen.
  destruct (inferred_cases [ws1; ws2]) as [[? _] | [(_ & Hs & _) | (_ & _ & H)]];
    [done | | done].
  exfalso. apply Hs.
  intros a b [-> | ->%list_elem_of_singleton]%elem_of_cons
             [-> | ->%list_elem_of_singleton]%elem_of_cons; done.
Qed.

(** X10: the fingerprint of a created record always compares equal to the
    tokens of its own message; when the fingerprint stored for the domain
    has the token count of the message, it also compares equal to the
    stored one and holds [_nonce_] wherever the stored one does. *)
Theorem createMessageInfo_fingerprint (now : Z) (msg : Request)
    (globalFingerprints : GlobalFingerprints) (messageInfo : MessageInfo) :
  createMessageInfo now msg globalFingerprints = Ok messageInfo →
  let tokens := splitWhitespace (replaceAddress (req_message msg)) in
  compareFingerprint (fingerprint messageInfo) tokens = true ∧
  ∀ stored : Fingerprint,
    get globalFingerprints (req_domain msg) = Some stored →
    length stored = length tokens →
    compareFingerprint (fingerprint messageInfo) stored = true ∧
    ∀ i, stored !! i = Some NONCE → fingerprint messageInfo !! i = Some NONCE.
Proof.
  intros (_ & _ & _ & _ & _ & Hfp)%createMessageInfo_fields tokens.
  destruct (get globalFingerprints (req_domain msg)) as [stored|].
  - rewrite (generateFingerprint_inferred_words _ [tokens; stored]) in Hfp
      by (repeat constructor).
    destruct (inferred [tokens; stored]) as [fp|e] eqn:Hinf; cbn [try_catch] in Hfp.
    + injection Hfp as <-. split.
      * apply (inferred_compare [tokens; stored]); [done | left].
      * intros ? [= <-] Hlen. split.
        -- apply (inferred_compare [tokens; stored]); [done | right; left].
        -- intros i Hi. apply (inferred_keeps_nonce [tokens; stored] fp stored);
             [done | right; left | done].
    + injection Hfp as <-. split; [apply compareFingerprint_refl |].
      intros ? [= <-] Hlen. destruct (inferred_pair tokens stored) as [fp Hfp]; [done |].
      discriminate (eq_trans (eq_sym Hinf) Hfp).
  - injection Hfp as <-. split; [apply compareFingerprint_refl | done].
Qed.

Lemma createMessageInfo_fingerprint_witness :
  let msg := {| req_address := "0xABC"; req_message := "login 78";
                req_domain := "bank.com"; req_web3Name := "bank" |} in
  let table := [("bank.com", ["login"; " "; "77"])] in
  let messageInfo := {| address := "0xABC"; message := "login 78"; createdAt := 5;
                        domain := "bank.com"; web3Name := "bank";
                        fingerprint := ["login"; " "; NONCE] |} in
  createMessageInfo 5 msg table = Ok messageInfo ∧
  compareFingerprint (fingerprint messageInfo) ["login"; " "; "78"] = true.
Proof.
  intros msg table messageInfo. split; [reflexivity |].
  exact (proj1 (createMessageInfo_fingerprint 5 msg table messageInfo eq_refl)).
Defined.

(** X11: when the fingerprint stored for the domain was inferred from
    earlier inputs, the created record carries what inferring from the
    new message and all those inputs at once gives, with the same
    fallback to the message alone. *)
Theorem createMessageInfo_batch (now : Z) (msg : Request)
    (globalFingerprints : GlobalFingerprints) (earlier : list Message)
    (stored : Fingerprint) (messageInfo : MessageInfo) :
  get globalFingerprints (req_domain msg) = Some stored →
  generateFingerprint earlier = Ok stored →
  createMessageInfo now msg globalFingerprints = Ok messageInfo →
  try_catch (generateFingerprint (Str (req_message msg) :: earlier))
    (fun _ => generateFingerprint [Str (req_message msg)])
  = Ok (fingerprint messageInfo).
Proof.
  intros Hstored Hearlier (_ & _ & _ & _ & _ & Hfp)%createMessageInfo_fields.
  rewrite Hstored in Hfp.
  rewrite generateFingerprint_cases. rewrite generateFingerprint_cases in Hearlier.
  destruct earlier as [|m ml]; [done |].
  destruct (existsb isOther (m :: ml)) eqn:Hother; [done |].
  change (existsb isOther (Str (req_message msg) :: m :: ml))
    with (existsb isOther (m :: ml)).
  rewrite Hother.
  change (map wordsOf (Str (req_message msg) :: m :: ml))
    with (splitWhitespace (replaceAddress (req_message msg)) :: map wordsOf (m :: ml)).
  rewrite (inferred_incremental _ _ _ Hearlier).
  rewrite (generateFingerprint_inferred_words _
             [splitWhitespace (replaceAddress (req_message msg)); stored]) in Hfp
    by (repeat constructor).
  exact Hfp.
Qed.

Lemma createMessageInfo_batch_witness :
  let msg := {| req_address := "0xABC"; req_message := "login 78 then";
                req_domain := "bank.com"; req_web3Name := "bank" |} in
  let earlier := [Str "login 77 now"; Str "login 78 now"] in
  let stored := ["login"; " "; NONCE; " "; "now"] in
  let messageInfo := {| address := "0xABC"; message := "login 78 then"; createdAt := 5;
                        domain := "bank.com"; web3Name := "bank";
                        fingerprint := ["login"; " "; NONCE; " "; NONCE] |} in
  generateFingerprint earlier = Ok stored ∧
  createMessageInfo 5 msg [("bank.com", stored)] = Ok messageInfo ∧
  generateFingerprint (Str "login 78 then" :: earlier) = Ok (fingerprint messageInfo).
Proof.
  intros msg earlier stored messageInfo. split; [reflexivity |]. split; [reflexivity |].
  pose proof (createMessageInfo_batch 5 msg [("bank.com", stored)] earlier stored messageInfo
                eq_refl eq_refl eq_refl) as H.
  exact H.
Defined.

(** ** Web3AuthController: what the store holds after an update *)

Lemma replaceValue_twice {V : Type} (o : JSObject V) (k : string) (v1 v2 : V) :
  replaceValue String.eqb (replaceValue String.eqb o k v1) k v2
  = replaceValue String.eqb o k v2.
Proof.
  induction o as [|[k' v'] o IH]; [done |].
  cbn. destruct (String.eqb k' k) eqn:He; cbn; rewrite He; [done | by rewrite IH].
Qed.

(** The outcome of [setMessageInfo]: it throws when the signer's address
    names a property that [signedMessages] inherits and does not own, and
    gives the updated storage otherwise. *)
Lemma setMessageInfo_result (web3Storage : Web3Storage) (messageInfo : MessageInfo) :
  let signer := address messageInfo in
  let history := historyOf (signedMessages web3Storage) signer in
  let ensured :=
    match get (signedMessages web3Storage) signer with
    | None => setProperty (signedMessages web3Storage) signer history
    | Some _ => signedMessages web3Storage
    end in
  setMessageInfo web3Storage messageInfo
  = if addressInherited (signedMessages web3Storage) signer
    then Throw TypeError
    else
      Ok {| globalFingerprints := globalFingerprints web3Storage;
            signedMessages :=
              replaceValue String.eqb ensured signer
                {| localFingerprints :=
                     setProperty (localFingerprints history) (domain messageInfo)
                       (fingerprint messageInfo);
                   localMessages :=
                     setNumbered (localMessages history) (createdAt messageInfo)
                       messageInfo |} |}.
Proof.
  intros signer history ensured.
  unfold setMessageInfo, addressInherited, getHistory, readProperty, ensured, history,
    historyOf, signer.
  destruct (get (signedMessages web3Storage) (address messageInfo)) as [h|] eqn:Hs;
    [|destruct (inheritedKey (address messageInfo)) eqn:Hkey]; cbv zeta.
  - rewrite Hs. cbn [mbind result_bind].
    rewrite get_replaceValue_eq by (by rewrite Hs).
    cbn [mbind result_bind localFingerprints localMessages].
    by rewrite replaceValue_twice.
  - by rewrite Hs.
  - rewrite get_setProperty_eq. cbn [mbind result_bind].
    rewrite get_replaceValue_eq by (by rewrite get_setProperty_eq).
    cbn [mbind result_bind localFingerprints localMessages].
    by rewrite replaceValue_twice.
Qed.

(** What the storage holds after a [setMessageInfo] that returns. *)
Lemma setMessageInfo_after (web3Storage web3Storage' : Web3Storage)
    (messageInfo : MessageInfo) :
  setMessageInfo web3Storage messageInfo = Ok web3Storage' →
  addressInherited (signedMessages web3Storage) (address messageInfo) = false ∧
  globalFingerprints web3Storage' = globalFingerprints web3Storage ∧
  ∃ history,
    get (signedMessages web3Storage') (address messageInfo) = Some history ∧
    localFingerprints history
    = setProperty
        (localFingerprints (historyOf (signedMessages web3Storage) (address messageInfo)))
        (domain messageInfo) (fingerprint messageInfo) ∧
    getNumbered (localMessages history) (createdAt messageInfo) = Some messageInfo ∧
    (∀ t, t ≠ createdAt messageInfo →
          getNumbered (localMessages history) t
          = getNumbered (localMessages
                           (historyOf (signedMessages web3Storage) (address messageInfo))) t) ∧
    (∀ a, a ≠ address messageInfo →
          get (signedMessages web3Storage') a = get (signedMessages web3Storage) a).
Proof.
  rewrite setMessageInfo_result.
  destruct (addressInherited _ _); [done |]. intros [= <-].
  cbn [globalFingerprints signedMessages].
  split; [done |]. split; [done |]. eexists. split.
  { apply get_replaceValue_eq.
    destruct (get (signedMessages web3Storage) (address messageInfo)) eqn:Hs;
      [by rewrite Hs | by rewrite get_setProperty_eq]. }
  cbn [localFingerprints localMessages].
  split; [done |].
  split; [apply lookup_assign_eq, Z.eqb_eq |].
  split; [intros t Ht; by apply lookup_assign_ne; [apply Z.eqb_eq |] |].
  intros a Ha. rewrite get_replaceValue_ne by done.
  destruct (get (signedMessages web3Storage) (address messageInfo)); [done |].
  by apply get_setProperty_ne.
Qed.

(** X12: [setMessageInfo] throws [TypeError], and nothing else, exactly
    when the signer's address names a property that [signedMessages]
    inherits and does not own.
    Otherwise, for a domain other than [__proto__], the signer's local
    fingerprint for the domain is afterwards the fingerprint of the
    message and the message is filed under its time stamp, while every
    other local fingerprint and filed message of the signer, every other
    signer and the global table are as before. *)
Theorem setMessageInfo_lookup (web3Storage : Web3Storage) (messageInfo : MessageInfo) :
  domain messageInfo ≠ "__proto__" →
  match setMessageInfo web3Storage messageInfo with
  | Throw e =>
      e = TypeError ∧
      addressInherited (signedMessages web3Storage) (address messageInfo) = true
  | Ok web3Storage' =>
      addressInherited (signedMessages web3Storage) (address messageInfo) = false ∧
      globalFingerprints web3Storage' = globalFingerprints web3Storage ∧
      ∃ history,
        get (signedMessages web3Storage') (address messageInfo) = Some history ∧
        get (localFingerprints history) (domain messageInfo)
        = Some (fingerprint messageInfo) ∧
        getNumbered (localMessages history) (createdAt messageInfo) = Some messageInfo ∧
        (∀ d, d ≠ domain messageInfo →
              get (localFingerprints history) d
              = get (localFingerprints
                       (historyOf (signedMessages web3Storage) (address messageInfo))) d) ∧
        (∀ t, t ≠ createdAt messageInfo →
              getNumbered (localMessages history) t
              = getNumbered (localMessages
                               (historyOf (signedMessages web3Storage)
                                  (address messageInfo))) t) ∧
        (∀ a, a ≠ address messageInfo →
              get (signedMessages web3Storage') a = get (signedMessages web3Storage) a)
  end.
Proof.
  intros _.
  destruct (setMessageInfo web3Storage messageInfo) as [web3Storage'|e] eqn:Hset.
  - destruct (setMessageInfo_after _ _ _ Hset)
      as (Haddr & Hglobal & history & Hget & Hlocal & Hfiled & Hothers & Hsigners).
    split; [done |]. split; [done |]. exists history.
    split; [done |]. rewrite Hlocal.
    split; [apply get_setProperty_eq |].
    split; [done |].
    split; [intros d Hd; by apply get_setProperty_ne |].
    done.
  - rewrite setMessageInfo_result in Hset.
    destruct (addressInherited _ _); [by injection Hset as <- | done].
Qed.

Lemma setMessageInfo_lookup_witness :
  let web3Storage := {| globalFingerprints := [];
                        signedMessages :=
                          [("0xABC", {| localFingerprints := [("bank.com", ["pay"])];
                                        localMessages := [] |})] |} in
  let messageInfo := {| address := "0xABC"; message := "login 77"; createdAt := 7;
                        domain := "shop.com"; web3Name := "shop";
                        fingerprint := ["login"; " "; "77"] |} in
  domain messageInfo ≠ "__proto__" ∧
  ∃ web3Storage' history,
    setMessageInfo web3Storage messageInfo = Ok web3Storage' ∧
    get (signedMessages web3Storage') "0xABC" = Some history ∧
    get (localFingerprints history) "shop.com" = Some ["login"; " "; "77"] ∧
    get (localFingerprints history) "bank.com" = Some ["pay"].
Proof.
  intros web3Storage messageInfo.
  assert (domain messageInfo ≠ "__proto__") as Hdom by done.
  split; [exact Hdom |].
  pose proof (setMessageInfo_lookup web3Storage messageInfo Hdom) as H.
  destruct (setMessageInfo web3Storage messageInfo) as [web3Storage'|e] eqn:Hset;
    [|by vm_compute in Hset].
  destruct H as (_ & _ & history & Hget & Hlocal & _ & Hothers & _).
  exists web3Storage', history. split; [done |]. split; [done |]. split; [done |].
  by rewrite (Hothers "bank.com").
Defined.

(** X13: after [setGlobalFingerprint] for a domain other than [__proto__]
    the global fingerprint of the domain is the fingerprint of the
    message, the latest write winning; the global fingerprints of all
    other domains and the signing history are as before, and a domain that
    was present keeps its place in the enumeration. *)
Theorem setGlobalFingerprint_lookup (web3Storage : Web3Storage) (messageInfo : MessageInfo) :
  domain messageInfo ≠ "__proto__" →
  let web3Storage' := setGlobalFingerprint web3Storage messageInfo in
  get (globalFingerprints web3Storage') (domain messageInfo)
  = Some (fingerprint messageInfo) ∧
  (∀ d, d ≠ domain messageInfo →
        get (globalFingerprints web3Storage') d = get (globalFingerprints web3Storage) d) ∧
  signedMessages web3Storage' = signedMessages web3Storage ∧
  (is_Some (get (globalFingerprints web3Storage) (domain messageInfo)) →
   keys (globalFingerprints web3Storage') = keys (globalFingerprints web3Storage)).
Proof.
  intros _. cbn. split; [apply get_setProperty_eq |].
  split; [intros d Hd; by apply get_setProperty_ne |].
  split; [done |].
  intros [fp Hfp]. rewrite get_lookup_by in Hfp.
  pose proof (keys_assign String.eqb arrayIndex (globalFingerprints web3Storage)
                (domain messageInfo) (fingerprint messageInfo)) as Hkeys.
  by rewrite Hfp in Hkeys.
Qed.

Lemma setGlobalFingerprint_lookup_witness :
  let web3Storage := {| globalFingerprints := [("a.com", ["old"]); ("b.com", ["b"])];
                        signedMessages := [] |} in
  let messageInfo := {| address := "0xABC"; message := "new"; createdAt := 7;
                        domain := "a.com"; web3Name := "a"; fingerprint := ["new"] |} in
  domain messageInfo ≠ "__proto__" ∧
  is_Some (get (globalFingerprints web3Storage) (domain messageInfo)) ∧
  keys (globalFingerprints (setGlobalFingerprint web3Storage messageInfo))
  = ["a.com"; "b.com"].
Proof.
  intros web3Storage messageInfo.
  assert (domain messageInfo ≠ "__proto__") as Hdom by done.
  assert (is_Some (get (globalFingerprints web3Storage) (domain messageInfo))) as H
    by (by exists ["old"]).
  split; [exact Hdom |]. split; [exact H |].
  exact (proj2 (proj2 (proj2 (setGlobalFingerprint_lookup web3Storage messageInfo Hdom))) H).
Defined.

(** X14: the two updates made after a signature touch separate halves of
    the storage: they give the same storage in either order. *)
Theorem setMessageInfo_setGlobalFingerprint_commute (web3Storage web3Storage' : Web3Storage)
    (signed published : MessageInfo) :
  setMessageInfo web3Storage signed = Ok web3Storage' →
  setMessageInfo (setGlobalFingerprint web3Storage published) signed
  = Ok (setGlobalFingerprint web3Storage' published).
Proof.
  rewrite !setMessageInfo_result. cbn [signedMessages setGlobalFingerprint].
  destruct (addressInherited _ _); [done |]. intros [= <-]. done.
Qed.

Lemma setMessageInfo_setGlobalFingerprint_commute_witness :
  let messageInfo := {| address := "0xABC"; message := "login 77"; createdAt := 7;
                        domain := "bank.com"; web3Name := "bank";
                        fingerprint := ["login"; " "; "77"] |} in
  ∃ web3Storage',
    setMessageInfo (initialStorage None) messageInfo = Ok web3Storage' ∧
    setMessageInfo (setGlobalFingerprint (initialStorage None) messageInfo) messageInfo
    = Ok (setGlobalFingerprint web3Storage' messageInfo).
Proof.
  intros messageInfo. eexists. split; [reflexivity |].
  apply (setMessageInfo_setGlobalFingerprint_commute (initialStorage None) _
           messageInfo messageInfo).
  reflexivity.
Defined.

Lemma setProperty_not_empty {V : Type} (o : JSObject V) (k : string) (v : V) :
  setProperty o k v ≠ [].
Proof.
  intros Hnil. pose proof (get_setProperty_eq o k v) as Hget.
  by rewrite Hnil in Hget.
Qed.

Lemma auditTrail_setMessageInfo (web3Storage web3Storage' : Web3Storage)
    (messageInfo : MessageInfo) :
  auditTrail web3Storage →
  domain messageInfo ≠ "__proto__" →
  setMessageInfo web3Storage messageInfo = Ok web3Storage' →
  auditTrail web3Storage'.
Proof.
  intros Hinv _ Hset.
  destruct (setMessageInfo_after _ _ _ Hset)
    as (_ & _ & history & Hsigner & Hlocal & Hmsg & Hmsgs & Hothers).
  assert (get (localFingerprints history) (domain messageInfo)
          = Some (fingerprint messageInfo)) as Hfp
    by (rewrite Hlocal; apply get_setProperty_eq).
  assert (∀ d, d ≠ domain messageInfo →
               get (localFingerprints history) d
               = get (localFingerprints
                        (historyOf (signedMessages web3Storage) (address messageInfo))) d)
    as Hfps by (intros d Hd; rewrite Hlocal; by apply get_setProperty_ne).
  intros signer history' Hget.
  destruct (decide (signer = address messageInfo)) as [-> | Hne];
    [|rewrite Hothers in Hget by done; by apply Hinv].
  rewrite Hsigner in Hget. injection Hget as <-. split.
  { intros Hnil. by rewrite Hnil in Hfp. }
  intros time filed Hfiled.
  destruct (decide (time = createdAt messageInfo)) as [-> | Htime].
  { rewrite Hmsg in Hfiled. injection Hfiled as <-. by rewrite Hfp. }
  rewrite Hmsgs in Hfiled by done. unfold historyOf in Hfiled, Hfps.
  destruct (get (signedMessages web3Storage) (address messageInfo)) as [old|] eqn:Hold;
    [|done].
  destruct (Hinv _ _ Hold) as [_ Hold']. destruct (Hold' _ _ Hfiled) as (Ha & Ht & Hd).
  split; [done |]. split; [done |].
  destruct (decide (domain filed = domain messageInfo)) as [-> | Hdom];
    [by rewrite Hfp | by rewrite Hfps].
Qed.

(** X15: in every storage the controller reaches from the empty one by
    updates for domains other than [__proto__], each
    filed message is filed for its own signer under its own time stamp,
    the domain of each filed message has a local fingerprint, and a
    signer on file has a local fingerprint for at least one domain. *)
Theorem Reachable_auditTrail (web3Storage : Web3Storage) :
  Reachable web3Storage → auditTrail web3Storage.
Proof.
  induction 1 as [|w w' messageInfo _ IH Hdom Hset|w messageInfo _ IH _].
  - intros signer history Hget. done.
  - by apply (auditTrail_setMessageInfo w w' messageInfo).
  - exact IH.
Qed.

Lemma Reachable_auditTrail_witness :
  let messageInfo := {| address := "0xABC"; message := "login 77"; createdAt := 7;
                        domain := "bank.com"; web3Name := "bank";
                        fingerprint := ["login"; " "; "77"] |} in
  ∃ web3Storage,
    setMessageInfo (setGlobalFingerprint (initialStorage None) messageInfo) messageInfo
    = Ok web3Storage ∧
    Reachable web3Storage ∧ auditTrail web3Storage.
Proof.
  intros messageInfo. eexists. split; [reflexivity |].
  assert (domain messageInfo ≠ "__proto__") as Hdom by done.
  assert (Reachable (setGlobalFingerprint (initialStorage None) messageInfo)) as H1
    by (apply reach_setGlobalFingerprint; [apply reach_initial | exact Hdom]).
  pose proof (reach_setMessageInfo _ _ messageInfo H1 Hdom eq_refl) as H2.
  split; [exact H2 | exact (Reachable_auditTrail _ H2)].
Defined.

(** ** The store and the assessor together *)

Lemma otherDomains_elem (table : JSObject Fingerprint) (domain : string)
    (f1 f2 : Fingerprint) (d : string) :
  d ≠ domain →
  get table d = Some f2 →
  compareFingerprint f1 f2 = true →
  d ∈ otherDomains table domain f1.
Proof.
  intros Hne Hget Hcmp. unfold otherDomains.
  apply list_elem_of_In, filter_In. split.
  - apply list_elem_of_In, get_keys. by rewrite Hget.
  - unfold matchesOther. rewrite Hget, Hcmp.
    by apply String.eqb_neq in Hne as ->.
Qed.

(** X16: once an address has signed for one domain, other than
    [__proto__], a request of the same address from any other domain whose
    fingerprint compares equal to the signed one is assessed as danger,
    naming the signed domain, whatever else the storage and the global
    table hold and whether or not the requesting domain occurs in the
    text. *)
Theorem signed_template_reused_is_danger (web3Storage web3Storage' : Web3Storage)
    (signed request : MessageInfo) (globalFingerprints : GlobalFingerprints) :
  domain signed ≠ "__proto__" →
  setMessageInfo web3Storage signed = Ok web3Storage' →
  address request = address signed →
  domain request ≠ domain signed →
  compareFingerprint (fingerprint request) (fingerprint signed) = true →
  ∃ risks victim_domains,
    checkMessageBeforeSign request (signedMessages web3Storage') globalFingerprints
    = Ok risks ∧
    phishingOf risks = [dangerPhishing (domain request) victim_domains] ∧
    domain signed ∈ victim_domains.
Proof.
  intros _ Hset Haddr Hdom Hcmp.
  destruct (setMessageInfo_after _ _ _ Hset) as (_ & _ & history & Hsigner & Hlocal & _).
  assert (get (localFingerprints history) (domain signed) = Some (fingerprint signed))
    as Hfp by (rewrite Hlocal; apply get_setProperty_eq).
  assert (dangerTrigger request (signedMessages web3Storage') = true) as Hdanger.
  { apply dangerTrigger_spec. exists history, (domain signed), (fingerprint signed).
    by rewrite Haddr. }
  eexists _, _. split.
  { rewrite checkMessageBeforeSign_result, Haddr.
    by rewrite (addressInherited_Own _ _ _ Hsigner). }
  rewrite phishingOf_findings. unfold phishingFinding. rewrite Hdanger.
  split; [done |]. unfold victimDomains. rewrite Haddr, Hsigner.
  by apply (otherDomains_elem _ _ _ (fingerprint signed)).
Qed.

Lemma signed_template_reused_is_danger_witness :
  let signed := {| address := "0xABC"; message := "login 77"; createdAt := 7;
                   domain := "bank.com"; web3Name := "bank";
                   fingerprint := ["login"; " "; "77"] |} in
  let request := {| address := "0xABC"; message := "login 78 evil.com"; createdAt := 9;
                    domain := "evil.com"; web3Name := "evil";
                    fingerprint := ["login"; " "; NONCE] |} in
  ∃ web3Storage' risks victim_domains,
    setMessageInfo (initialStorage None) signed = Ok web3Storage' ∧
    checkMessageBeforeSign request (signedMessages web3Storage') [] = Ok risks ∧
    phishingOf risks = [dangerPhishing "evil.com" victim_domains] ∧
    "bank.com" ∈ victim_domains.
Proof.
  intros signed request.
  destruct (signed_template_reused_is_danger (initialStorage None)
              {| globalFingerprints := [];
                 signedMessages :=
                   [("0xABC",
                     {| localFingerprints := [("bank.com", ["login"; " "; "77"])];
                        localMessages := [(7%Z, signed)] |})] |}
              signed request [] ltac:(discriminate) eq_refl eq_refl)
    as (risks & victim_domains & H1 & H2 & H3).
  - discriminate.
  - reflexivity.
  - eexists _, risks, victim_domains. split; [reflexivity |]. by split.
Defined.

(** X17: once a fingerprint is published for one domain, other than
    [__proto__], a request from any other domain whose fingerprint compares
    equal to it, made by a signer whose address names no property that the
    history inherits without owning it, gets a phishing finding of severity
    warning or danger, never info or none. *)
Theorem published_template_reused_is_warning (web3Storage : Web3Storage)
    (published request : MessageInfo) (signedMessages : SignedMessages) :
  domain published ≠ "__proto__" →
  addressInherited signedMessages (address request) = false →
  domain request ≠ domain published →
  compareFingerprint (fingerprint request) (fingerprint published) = true →
  ∃ risks r,
    checkMessageBeforeSign request signedMessages
      (globalFingerprints (setGlobalFingerprint web3Storage published)) = Ok risks ∧
    phishingOf risks = [r] ∧
    (severity r = "danger" ∨ severity r = "warning").
Proof.
  intros _ Haddr Hdom Hcmp.
  assert (warningTrigger request
            (globalFingerprints (setGlobalFingerprint web3Storage published)) = true)
    as Hwarn.
  { apply warningTrigger_spec. exists (domain published), (fingerprint published).
    split; [done |]. split; [apply get_setProperty_eq | done]. }
  rewrite checkMessageBeforeSign_result, Haddr.
  destruct (dangerTrigger request signedMessages) eqn:Hdanger.
  - eexists _, _. split; [done |]. rewrite phishingOf_findings.
    unfold phishingFinding. rewrite Hdanger. split; [done | by left].
  - eexists _, _. split; [done |]. rewrite phishingOf_findings.
    unfold phishingFinding. rewrite Hdanger, Hwarn. split; [done | by right].
Qed.

Lemma published_template_reused_is_warning_witness :
  let published := {| address := "0xABC"; message := "login 77"; createdAt := 7;
                      domain := "site-a.com"; web3Name := "a";
                      fingerprint := ["login"; " "; "77"] |} in
  let request := {| address := "0xDEF"; message := "login 77"; createdAt := 9;
                    domain := "site-b.com"; web3Name := "b";
                    fingerprint := ["login"; " "; "77"] |} in
  ∃ risks r,
    checkMessageBeforeSign request []
      (globalFingerprints (setGlobalFingerprint (initialStorage None) published))
    = Ok risks ∧
    phishingOf risks = [r] ∧
    (severity r = "danger" ∨ severity r = "warning").
Proof.
  intros published request.
  apply (published_template_reused_is_warning (initialStorage None) published request []).
  - discriminate.
  - reflexivity.
  - discriminate.
  - reflexivity.
Defined.

Lemma containsNonce_elem (f : Fingerprint) : containsNonce f = true ↔ NONCE ∈ f.
Proof. unfold containsNonce. apply bool_decide_eq_true. Qed.

Lemma infoReplay_in_result (messageInfo : MessageInfo) (signedMessages : SignedMessages)
    (globalFingerprints : GlobalFingerprints) :
  infoReplay ∈ phishingFinding messageInfo signedMessages globalFingerprints
               ++ replayAppended messageInfo signedMessages globalFingerprints
  ↔ nonceInMsg_read messageInfo signedMessages globalFingerprints = false.
Proof.
  unfold phishingFinding, replayAppended.
  destruct (nonceInMsg_read _ _ _); case_conditions; cbn; split; try done;
    intros Hin;
    repeat (apply elem_of_cons in Hin as [Hin | Hin]; [discriminate Hin |]);
    try (by apply elem_of_nil in Hin);
    try (apply list_elem_of_singleton; reflexivity);
    try (right; left).
Qed.

Lemma firstMatchingDomain_None (table : JSObject Fingerprint) (domain : string)
    (f1 : Fingerprint) :
  someOtherMatches table domain f1 = false → firstMatchingDomain table domain f1 = None.
Proof.
  unfold someOtherMatches, firstMatchingDomain.
  induction (keys table) as [|d ds IH]; [done |].
  cbn. destruct (matchesOther table domain f1 d); [done | exact IH].
Qed.

Lemma someOtherMatches_false (table : JSObject Fingerprint) (domain : string)
    (f1 : Fingerprint) :
  (∀ d f2, d ≠ domain → get table d = Some f2 → compareFingerprint f1 f2 = false) →
  someOtherMatches table domain f1 = false.
Proof.
  intros H. destruct (someOtherMatches table domain f1) eqn:Hs; [|done].
  apply someOtherMatches_spec in Hs as (d & f2 & Hne & Hget & Hcmp).
  by rewrite (H d f2) in Hcmp.
Qed.

(** X18: a request from a domain for which the signer already has a local
    fingerprint gets the replay finding exactly when its own fingerprint
    holds no [_nonce_], whatever the global table holds. *)
Theorem known_domain_replay (web3Storage web3Storage' : Web3Storage)
    (signed request : MessageInfo) (globalFingerprints : GlobalFingerprints) :
  setMessageInfo web3Storage signed = Ok web3Storage' →
  address request = address signed →
  domain request = domain signed →
  ∃ risks,
    checkMessageBeforeSign request (signedMessages web3Storage') globalFingerprints
    = Ok risks ∧
    (infoReplay ∈ risks ↔ NONCE ∉ fingerprint request).
Proof.
  intros Hset Haddr Hdom.
  destruct (setMessageInfo_after _ _ _ Hset) as (_ & _ & history & Hsigner & Hlocal & _).
  assert (get (localFingerprints history) (domain signed) = Some (fingerprint signed))
    as Hfp by (rewrite Hlocal; apply get_setProperty_eq).
  eexists. split.
  { rewrite checkMessageBeforeSign_result, Haddr.
    by rewrite (addressInherited_Own _ _ _ Hsigner). }
  rewrite infoReplay_in_result. unfold nonceInMsg_read, localRead.
  rewrite Haddr, Hsigner, Hdom, (readProperty_Own _ _ _ Hfp).
  rewrite <- containsNonce_elem. by destruct (containsNonce (fingerprint request)).
Qed.

Lemma known_domain_replay_witness :
  let signed := {| address := "0xABC"; message := "login 77"; createdAt := 7;
                   domain := "bank.com"; web3Name := "bank";
                   fingerprint := ["login"; " "; "77"] |} in
  let request := {| address := "0xABC"; message := "login 78"; createdAt := 9;
                    domain := "bank.com"; web3Name := "bank";
                    fingerprint := ["login"; " "; NONCE] |} in
  ∃ web3Storage' risks,
    setMessageInfo (initialStorage None) signed = Ok web3Storage' ∧
    checkMessageBeforeSign request (signedMessages web3Storage') [] = Ok risks ∧
    (infoReplay ∈ risks ↔ NONCE ∉ fingerprint request).
Proof.
  intros signed request. eexists.
  destruct (known_domain_replay (initialStorage None) _ signed request [] eq_refl
              eq_refl eq_refl) as (risks & H1 & H2).
  exists risks. split; [reflexivity |]. by split.
Defined.

(** X19: a request from a domain under which the signer's local
    fingerprints hold nothing, neither an entry of their own nor a
    property every object inherits, made by a signer whose address names
    no property that the history inherits without owning it, and whose
    fingerprint matches the global fingerprint of no other domain, always
    gets the replay finding, even when its own fingerprint holds
    [_nonce_]. *)
Theorem first_contact_replay (messageInfo : MessageInfo) (signedMessages : SignedMessages)
    (globalFingerprints : GlobalFingerprints) :
  addressInherited signedMessages (address messageInfo) = false →
  (∀ history, get signedMessages (address messageInfo) = Some history →
              readProperty (localFingerprints history) (domain messageInfo) = Undefined) →
  (∀ d f2, d ≠ domain messageInfo → get globalFingerprints d = Some f2 →
           compareFingerprint (fingerprint messageInfo) f2 = false) →
  ∃ risks,
    checkMessageBeforeSign messageInfo signedMessages globalFingerprints = Ok risks ∧
    last risks = Some infoReplay.
Proof.
  intros Haddr Hlocal Hglobal.
  eexists. split; [by rewrite checkMessageBeforeSign_result, Haddr |].
  assert (nonceInMsg_read messageInfo signedMessages globalFingerprints = false) as Hn.
  { unfold nonceInMsg_read, localRead.
    destruct (get signedMessages (address messageInfo)) as [history|] eqn:Hs.
    - rewrite (Hlocal history eq_refl).
      by rewrite firstMatchingDomain_None by (by apply someOtherMatches_false).
    - by rewrite firstMatchingDomain_None by (by apply someOtherMatches_false). }
  unfold replayAppended. rewrite Hn. apply last_snoc.
Qed.

Lemma first_contact_replay_witness :
  let messageInfo := {| address := "0xABC"; message := "login 78 to bank.com"; createdAt := 9;
                        domain := "bank.com"; web3Name := "bank";
                        fingerprint := ["login"; " "; NONCE; " "; "to"; " "; "bank.com"] |} in
  let history := {| localFingerprints := [("shop.com", ["pay"])]; localMessages := [] |} in
  let table := [("bank.com", ["login"; " "; NONCE; " "; "to"; " "; "bank.com"])] in
  ∃ risks, checkMessageBeforeSign messageInfo [("0xABC", history)] table = Ok risks ∧
           last risks = Some infoReplay.
Proof.
  intros messageInfo history table.
  apply (first_contact_replay messageInfo [("0xABC", history)] table).
  - reflexivity.
  - intros history' Hget. injection Hget as <-. reflexivity.
  - intros d f2 Hd Hget. unfold table in Hget. cbn [get] in Hget.
    destruct (String.eqb "bank.com" d) eqn:He; [|discriminate Hget].
    apply String.eqb_eq in He. by destruct Hd.
Defined.

Lemma lists_differ (l1 l2 : list string) :
  length l1 = length l2 → l1 ≠ l2 →
  ∃ i a b, l1 !! i = Some a ∧ l2 !! i = Some b ∧ a ≠ b.
Proof.
  revert l2. induction l1 as [|a l1 IH]; intros [|b l2] Hlen Hne; try done.
  destruct (decide (a = b)) as [-> | Hab].
  - destruct (IH l2) as (i & x & y & H1 & H2 & Hxy); [by injection Hlen | congruence |].
    by exists (S i), x, y.
  - by exists 0, a, b.
Qed.

(** X20: after a signature has been stored and published, a message of the
    same signer and domain with the same number of tokens that differs
    from the stored fingerprint gets a fingerprint holding [_nonce_], and
    its assessment holds no replay finding. *)
Theorem changed_token_learns_nonce (web3Storage web3Storage' : Web3Storage)
    (signed : MessageInfo) (now : Z) (msg : Request) (request : MessageInfo) :
  setMessageInfo (setGlobalFingerprint web3Storage signed) signed = Ok web3Storage' →
  req_address msg = address signed →
  req_domain msg = domain signed →
  length (splitWhitespace (replaceAddress (req_message msg))) = length (fingerprint signed) →
  splitWhitespace (replaceAddress (req_message msg)) ≠ fingerprint signed →
  createMessageInfo now msg (globalFingerprints web3Storage') = Ok request →
  NONCE ∈ fingerprint request ∧
  ∃ risks,
    checkMessageBeforeSign request (signedMessages web3Storage')
      (globalFingerprints web3Storage') = Ok risks ∧
    ∀ r, r ∈ risks → title r = "Phishing Attack".
Proof.
  intros Hset Haddr Hdom Hlen Hdiff Hcreate.
  destruct (setMessageInfo_after _ _ _ Hset)
    as (_ & Hglobal & history & Hsigner & Hlocal & _).
  assert (get (localFingerprints history) (domain signed) = Some (fingerprint signed))
    as Hfp by (rewrite Hlocal; apply get_setProperty_eq).
  assert (get (globalFingerprints web3Storage') (req_domain msg)
          = Some (fingerprint signed)) as Hstored.
  { rewrite Hglobal, Hdom. apply get_setProperty_eq. }
  destruct (createMessageInfo_fields _ _ _ _ Hcreate) as (Ha & _ & _ & Hd & _ & Hinf).
  rewrite Hstored in Hinf.
  set (tokens := splitWhitespace (replaceAddress (req_message msg))) in *.
  rewrite (generateFingerprint_inferred_words _ [tokens; fingerprint signed]) in Hinf
    by (repeat constructor).
  destruct (inferred_pair tokens (fingerprint signed) Hlen) as [fp Hfp'].
  pose proof Hfp' as Hfp''. unfold Fingerprint in Hfp''.
  assert (fingerprint request = fp) as Hreq.
  { unfold Fingerprint in *. rewrite Hfp'' in Hinf. by injection Hinf. }
  assert (NONCE ∈ fingerprint request) as Hnonce.
  { rewrite Hreq.
    destruct (lists_differ tokens (fingerprint signed) Hlen Hdiff)
      as (i & a & b & H1 & H2 & Hab).
    apply (list_elem_of_lookup_2 _ i).
    rewrite (inferred_first [tokens; fingerprint signed] fp tokens i a Hfp');
      [|left | done].
    destruct (every (wordAt_eq i a) [tokens; fingerprint signed]) eqn:Hev; [|done].
    exfalso. rewrite every_wordAt_eq in Hev.
    specialize (Hev (fingerprint signed) ltac:(right; left)). congruence. }
  split; [done |].
  eexists. split.
  { rewrite checkMessageBeforeSign_result, Ha, Haddr.
    by rewrite (addressInherited_Own _ _ _ Hsigner). }
  assert (nonceInMsg_read request (signedMessages web3Storage')
            (globalFingerprints web3Storage') = true) as Hn.
  { unfold nonceInMsg_read, localRead.
    rewrite Ha, Haddr, Hsigner, Hd, Hdom, (readProperty_Own _ _ _ Hfp).
    by apply containsNonce_elem. }
  unfold replayAppended. rewrite Hn, app_nil_r.
  unfold phishingFinding. intros r.
  case_conditions; intros Hin;
    repeat (apply elem_of_cons in Hin as [-> | Hin]; [done |]);
    by apply elem_of_nil in Hin.
Qed.

Lemma changed_token_learns_nonce_witness :
  let signed := {| address := "0xABC"; message := "login 77 to bank.com"; createdAt := 7;
                   domain := "bank.com"; web3Name := "bank";
                   fingerprint := ["login"; " "; "77"; " "; "to"; " "; "bank.com"] |} in
  let msg := {| req_address := "0xABC"; req_message := "login 78 to bank.com";
                req_domain := "bank.com"; req_web3Name := "bank" |} in
  ∃ web3Storage' request risks,
    setMessageInfo (setGlobalFingerprint (initialStorage None) signed) signed
    = Ok web3Storage' ∧
    createMessageInfo 9 msg (globalFingerprints web3Storage') = Ok request ∧
    fingerprint request = ["login"; " "; NONCE; " "; "to"; " "; "bank.com"] ∧
    NONCE ∈ fingerprint request ∧
    checkMessageBeforeSign request (signedMessages web3Storage')
      (globalFingerprints web3Storage') = Ok risks ∧
    ∀ r, r ∈ risks → title r = "Phishing Attack".
Proof.
  intros signed msg.
  set (web3Storage' :=
         {| globalFingerprints := [("bank.com", fingerprint signed)];
            signedMessages :=
              [("0xABC",
                {| localFingerprints := [("bank.com", fingerprint signed)];
                   localMessages := [(7%Z, signed)] |})] |}).
  set (request := {| address := "0xABC"; message := "login 78 to bank.com"; createdAt := 9;
                     domain := "bank.com"; web3Name := "bank";
                     fingerprint := ["login"; " "; NONCE; " "; "to"; " "; "bank.com"] |}).
  destruct (changed_token_learns_nonce (initialStorage None) web3Storage' signed 9 msg
              request eq_refl eq_refl eq_refl eq_refl)
    as (Hnonce & risks & Hrisks & Htitles).
  - discriminate.
  - reflexivity.
  - exists web3Storage', request, risks.
    split; [reflexivity |]. split; [reflexivity |]. split; [reflexivity |].
    split; [exact Hnonce |]. split; [exact Hrisks | exact Htitles].
Defined.

(** X21: entries for the requesting domain itself never count as a match:
    when the global table and the signer's local fingerprints name no
    other domain, and the signer's address names no property that the
    history inherits without owning it, the only phishing finding there
    can be is the info-level one for a text that does not name the
    domain. *)
Theorem own_template_not_phishing (messageInfo : MessageInfo)
    (signedMessages : SignedMessages) (globalFingerprints : GlobalFingerprints) :
  addressInherited signedMessages (address messageInfo) = false →
  (∀ d, d ∈ keys globalFingerprints → d = domain messageInfo) →
  (∀ history d, get signedMessages (address messageInfo) = Some history →
                d ∈ keys (localFingerprints history) → d = domain messageInfo) →
  ∃ risks,
    checkMessageBeforeSign messageInfo signedMessages globalFingerprints = Ok risks ∧
    phishingOf risks = if domainInMessage messageInfo then [] else [infoPhishing].
Proof.
  intros Haddr Hglobal Hlocal.
  assert (∀ table : JSObject Fingerprint,
            (∀ d, d ∈ keys table → d = domain messageInfo) →
            someOtherMatches table (domain messageInfo) (fingerprint messageInfo) = false)
    as Hnone.
  { intros table Hkeys.
    destruct (someOtherMatches table _ _) eqn:Hs; [|done].
    apply someOtherMatches_spec in Hs as (d & f2 & Hne & Hget & _).
    destruct Hne. apply Hkeys, get_keys. by rewrite Hget. }
  eexists. split; [by rewrite checkMessageBeforeSign_result, Haddr |].
  rewrite phishingOf_findings. unfold phishingFinding, dangerTrigger, warningTrigger.
  rewrite (Hnone globalFingerprints Hglobal).
  destruct (get signedMessages (address messageInfo)) as [history|] eqn:Hs.
  - rewrite (Hnone (localFingerprints history)) by (intros d; by apply Hlocal).
    by destruct (domainInMessage messageInfo).
  - by destruct (domainInMessage messageInfo).
Qed.

Lemma own_template_not_phishing_witness :
  let messageInfo := {| address := "0xABC"; message := "login 78 to bank.com"; createdAt := 9;
                        domain := "bank.com"; web3Name := "bank";
                        fingerprint := ["login"; " "; "78"; " "; "to"; " "; "bank.com"] |} in
  let table := [("bank.com", ["login"; " "; "78"; " "; "to"; " "; "bank.com"])] in
  ∃ risks, checkMessageBeforeSign messageInfo [] table = Ok risks ∧ phishingOf risks = [].
Proof.
  intros messageInfo table.
  apply (own_template_not_phishing messageInfo [] table).
  - reflexivity.
  - intros d Hin. by apply list_elem_of_singleton in Hin.
  - intros history d Hget. discriminate Hget.
Defined.

(** ** The two-argument revision *)

(** The result of the earlier assessment. *)
Lemma earlier_result (messageInfo : MessageInfo) (signedMessages : SignedMessages) :
  Earlier.checkMessageBeforeSign messageInfo signedMessages
  = Ok ((if Z.eqb (indexOf (message messageInfo) (domain messageInfo)) (-1)
         then (if dangerTrigger messageInfo signedMessages
               then [Earlier.dangerPhishing (victimDomains messageInfo signedMessages)]
               else []) ++ [Earlier.warningPhishing]
         else [])
        ++ (if containsNonce (fingerprint messageInfo) then [] else [Earlier.warningReplay])).
Proof.
  unfold Earlier.checkMessageBeforeSign, dangerTrigger, victimDomains, readProperty.
  rewrite containsNonce_some.
  destruct (Z.eqb (indexOf (message messageInfo) (domain messageInfo)) (-1));
    cbn [negb mbind result_bind].
  - destruct (get signedMessages (address messageInfo)) as [history|].
    + rewrite matchingDomains_otherDomains. cbn [mbind result_bind].
      rewrite otherDomains_nonempty.
      destruct (someOtherMatches _ _ _), (containsNonce _); reflexivity.
    + destruct (inheritedKey (address messageInfo)); cbn [mbind result_bind];
        by destruct (containsNonce _).
  - by destruct (containsNonce _).
Qed.

(** X22: the earlier revision never throws; it reports phishing only for a
    text in which the domain does not occur as spelled, then always with
    a warning, which a danger finding precedes when another domain's
    local fingerprint matches; it reports replay exactly when the
    fingerprint holds no [_nonce_]. *)
Theorem earlier_assessment (messageInfo : MessageInfo) (signedMessages : SignedMessages) :
  ∃ risks,
    Earlier.checkMessageBeforeSign messageInfo signedMessages = Ok risks ∧
    map severity (phishingOf risks)
    = (if Z.eqb (indexOf (message messageInfo) (domain messageInfo)) (-1)
       then if dangerTrigger messageInfo signedMessages
            then ["danger"; "warning"] else ["warning"]
       else []) ∧
    (Z.eqb (indexOf (message messageInfo) (domain messageInfo)) (-1) = false
     ↔ Occurs (domain messageInfo) (message messageInfo)) ∧
    (Earlier.warningReplay ∈ risks ↔ NONCE ∉ fingerprint messageInfo).
Proof.
  eexists. split; [apply earlier_result |]. split; [|split].
  - unfold phishingOf. case_conditions; reflexivity.
  - rewrite <- indexOf_found, Z.eqb_neq. done.
  - rewrite <- containsNonce_elem.
    destruct (containsNonce (fingerprint messageInfo)); case_conditions; cbn;
      split; try done; intros Hin;
      repeat (apply elem_of_cons in Hin as [Hin | Hin]; [discriminate Hin |]);
      try (by apply elem_of_nil in Hin);
      try (apply list_elem_of_singleton; reflexivity);
      try (right; left); try (do 2 right; left).
Qed.

(** X23: whenever the earlier revision reports danger, the later revision
    reports danger for the same request and history, whatever the global
    table holds; the later one also reports danger for a text that names
    the requesting domain, where the earlier one reports no phishing. *)
Theorem earlier_danger_still_danger :
  (∀ (messageInfo : MessageInfo) (signedMessages : SignedMessages)
     (globalFingerprints : GlobalFingerprints) (risks1 : list Risk) (r : Risk),
     Earlier.checkMessageBeforeSign messageInfo signedMessages = Ok risks1 →
     r ∈ risks1 →
     severity r = "danger" →
     ∃ risks2,
       checkMessageBeforeSign messageInfo signedMessages globalFingerprints = Ok risks2 ∧
       map severity (phishingOf risks2) = ["danger"]) ∧
  (∃ (messageInfo : MessageInfo) (signedMessages : SignedMessages) (risks1 risks2 : list Risk),
     Earlier.checkMessageBeforeSign messageInfo signedMessages = Ok risks1 ∧
     phishingOf risks1 = [] ∧
     checkMessageBeforeSign messageInfo signedMessages [] = Ok risks2 ∧
     map severity (phishingOf risks2) = ["danger"]).
Proof.
  split.
  - intros messageInfo signedMessages globalFingerprints risks1 r Hcheck Hin Hsev.
    rewrite earlier_result in Hcheck. injection Hcheck as <-.
    assert (dangerTrigger messageInfo signedMessages = true) as Hdanger.
    { destruct (dangerTrigger messageInfo signedMessages); [done |]. exfalso.
      revert Hin. case_conditions; cbn; intros Hin;
        repeat (apply elem_of_cons in Hin as [-> | Hin]; [done |]);
        by apply elem_of_nil in Hin. }
    assert (addressInherited signedMessages (address messageInfo) = false) as Haddr.
    { unfold dangerTrigger in Hdanger.
      destruct (get signedMessages (address messageInfo)) as [history|] eqn:Hs; [|done].
      by apply (addressInherited_Own _ _ history). }
    eexists. split; [by rewrite checkMessageBeforeSign_result, Haddr |].
    rewrite phishingOf_findings. unfold phishingFinding. by rewrite Hdanger.
  - exists {| address := "0xABC"; message := "login 78 to evil.com"; createdAt := 9;
              domain := "evil.com"; web3Name := "evil";
              fingerprint := ["login"; " "; "78"; " "; "to"; " "; "evil.com"] |},
           [("0xABC",
             {| localFingerprints :=
                  [("bank.com", ["login"; " "; NONCE; " "; "to"; " "; NONCE])];
                localMessages := [] |})].
    eexists _, _. repeat split; reflexivity.
Qed.

Lemma earlier_danger_still_danger_witness :
  let messageInfo := {| address := "0xABC"; message := "login 78"; createdAt := 9;
                        domain := "evil.com"; web3Name := "evil";
                        fingerprint := ["login"; " "; "78"] |} in
  let signedMessages :=
    [("0xABC", {| localFingerprints := [("bank.com", ["login"; " "; NONCE])];
                  localMessages := [] |})] in
  Earlier.checkMessageBeforeSign messageInfo signedMessages
  = Ok [Earlier.dangerPhishing ["bank.com"]; Earlier.warningPhishing; Earlier.warningReplay] ∧
  ∃ risks2,
    checkMessageBeforeSign messageInfo signedMessages [] = Ok risks2 ∧
    map severity (phishingOf risks2) = ["danger"].
Proof.
  intros messageInfo signedMessages. split; [reflexivity |].
  apply (proj1 earlier_danger_still_danger messageInfo signedMessages []
           [Earlier.dangerPhishing ["bank.com"]; Earlier.warningPhishing;
            Earlier.warningReplay]
           (Earlier.dangerPhishing ["bank.com"])).
  - reflexivity.
  - left.
  - reflexivity.
Defined.

(** ** Words and whitespace by position *)

Lemma split_from_positions (s : string) :
  ∀ (inSpace : bool) (cur : string),
    (if inSpace then isSeparator cur else isPiece cur) = true →
    Nat.odd (length (split_from inSpace cur s)) = negb inSpace ∧
    ∀ i token,
      split_from inSpace cur s !! i = Some token →
      (if xorb inSpace (Nat.odd i) then isSeparator token else isPiece token) = true.
Proof.
  induction s as [|c s IH]; intros inSpace cur Hcur.
  - destruct inSpace; (split; [done |]); intros [|[|i]] token Hi; try done;
      by injection Hi as <-.
  - cbn [split_from]. destruct (isWhiteSpace c) eqn:Hc, inSpace; cbn [Bool.eqb].
    + apply IH. apply isSeparator_snoc; auto.
    + destruct (IH true (String c EmptyString)) as [Hodd Hpos]; [cbn; by rewrite Hc |].
      split.
      * cbn [length]. rewrite Nat.odd_succ, <- Nat.negb_odd, Hodd. done.
      * intros [|i] token Hi; [by injection Hi as <- |].
        cbn in Hi. specialize (Hpos i token Hi).
        rewrite Nat.odd_succ, <- Nat.negb_odd. cbn [xorb] in *.
        by destruct (Nat.odd i).
    + destruct (IH false (String c EmptyString)) as [Hodd Hpos]; [cbn; by rewrite Hc |].
      split.
      * cbn [length]. rewrite Nat.odd_succ, <- Nat.negb_odd, Hodd. done.
      * intros [|i] token Hi; [by injection Hi as <- |].
        cbn in Hi. specialize (Hpos i token Hi).
        rewrite Nat.odd_succ, <- Nat.negb_odd. cbn [xorb] in *.
        by destruct (Nat.odd i).
    + apply IH. unfold isPiece in *. by rewrite allChars_snoc, Hcur, Hc.
Qed.

(** X9: the fingerprint of a message text has an odd number of tokens, at
    least one; the tokens at the even positions hold no whitespace and
    the tokens at the odd positions are non-empty whitespace runs. *)
Theorem text_fingerprint_positions (m : string) :
  ∃ fp,
    generateFingerprint [Str m] = Ok fp ∧
    Nat.odd (length fp) = true ∧
    ∀ i token,
      fp !! i = Some token →
      (if Nat.odd i then isSeparator token else isPiece token) = true.
Proof.
  exists (splitWhitespace (replaceAddress m)). split; [done |].
  apply (split_from_positions (replaceAddress m) false EmptyString eq_refl).
Qed.

(** X1: [compareFingerprint] holds between a fingerprint and itself and
    does not depend on the order of its two arguments. *)
Theorem compareFingerprint_reflexive_symmetric :
  (∀ f : Fingerprint, compareFingerprint f f = true) ∧
  (∀ a b : Fingerprint, compareFingerprint a b = compareFingerprint b a).
Proof.
  split.
  - intros f. unfold compareFingerprint. rewrite Nat.eqb_refl. cbn [negb].
    apply compareWords_refl.
  - intros a b. unfold compareFingerprint. rewrite (Nat.eqb_sym (length a)).
    destruct (negb _); [done | apply compareWords_sym].
Qed.

(** ** Names that every object inherits *)

(** X24: for a signer whose address names no property that the history
    inherits without owning it, and a domain that names no property every
    object inherits, the assessment returns the phishing findings and,
    behind them, the replay finding exactly when [nonceInMsg] is false:
    with a local fingerprint entry of the signer for this very domain,
    [nonceInMsg] tells whether the message fingerprint holds [_nonce_];
    otherwise, with a match in the global scan, whether the global
    fingerprint of the first matching domain holds [_nonce_]; otherwise it
    is false. *)
Theorem ordinary_names_replay (messageInfo : MessageInfo)
    (signedMessages : SignedMessages) (globalFingerprints : GlobalFingerprints) :
  addressInherited signedMessages (address messageInfo) = false →
  inheritedKey (domain messageInfo) = false →
  ∃ phishing,
    Forall (fun r => title r = "Phishing Attack") phishing ∧
    severity infoReplay = "info" ∧
    title infoReplay = "Replay Attack" ∧
    checkMessageBeforeSign messageInfo signedMessages globalFingerprints
    = Ok (if nonceInMsg_spec messageInfo signedMessages globalFingerprints
          then phishing
          else push phishing infoReplay).
Proof.
  intros Haddr Hdom.
  exists (phishingFinding messageInfo signedMessages globalFingerprints).
  split; [|split; [done |split; [done |]]].
  - unfold phishingFinding. case_conditions; repeat constructor.
  - rewrite checkMessageBeforeSign_ordinary by done. unfold replayFinding, push.
    destruct (nonceInMsg_spec _ _ _); [by rewrite app_nil_r | done].
Qed.

Lemma ordinary_names_replay_witness :
  let messageInfo := {| address := "0xABC"; message := "login 78 to bank.com"; createdAt := 9;
                        domain := "bank.com"; web3Name := "bank";
                        fingerprint := ["login"; " "; "78"; " "; "to"; " "; "bank.com"] |} in
  let signedMessages : SignedMessages :=
    [("0xABC", {| localFingerprints :=
                    [("bank.com", ["login"; " "; "77"; " "; "to"; " "; "bank.com"])];
                  localMessages := [] |})] in
  nonceInMsg_spec messageInfo signedMessages [] = false ∧
  ∃ phishing,
    Forall (fun r => title r = "Phishing Attack") phishing ∧
    checkMessageBeforeSign messageInfo signedMessages []
    = Ok (if nonceInMsg_spec messageInfo signedMessages []
          then phishing
          else push phishing infoReplay).
Proof.
  intros messageInfo signedMessages. split; [reflexivity |].
  destruct (ordinary_names_replay messageInfo signedMessages [] eq_refl eq_refl)
    as (phishing & Htitles & _ & _ & Hcheck).
  exists phishing. by split.
Defined.

(** X25: for a domain without an entry of its own in the global table the
    created record carries the fingerprint of the message text alone,
    also when the domain names a property every object inherits: the
    inherited value joins the inputs, the two-input attempt throws, and
    the fingerprint is generated again from the text. *)
Theorem createMessageInfo_no_entry (now : Z) (msg : Request)
    (globalFingerprints : GlobalFingerprints) :
  get globalFingerprints (req_domain msg) = None →
  (inheritedKey (req_domain msg) = true →
   generateFingerprint [Str (req_message msg); Other] = Throw NotStringOrArray) ∧
  createMessageInfo now msg globalFingerprints
  = Ok {| address := req_address msg;
          message := req_message msg;
          createdAt := now;
          domain := req_domain msg;
          web3Name := req_web3Name msg;
          fingerprint := splitWhitespace (replaceAddress (req_message msg)) |}.
Proof.
  intros Hget. split; [done |].
  unfold createMessageInfo. rewrite (readProperty_None _ _ Hget).
  destruct (inheritedKey (req_domain msg)); reflexivity.
Qed.

Lemma createMessageInfo_no_entry_witness :
  let msg := {| req_address := "0xABC"; req_message := "login 78";
                req_domain := "constructor"; req_web3Name := "site" |} in
  let globalFingerprints : GlobalFingerprints := [("bank.com", ["login"; " "; "77"])] in
  get globalFingerprints (req_domain msg) = None ∧
  inheritedKey (req_domain msg) = true ∧
  ∃ messageInfo,
    createMessageInfo 9 msg globalFingerprints = Ok messageInfo ∧
    fingerprint messageInfo = ["login"; " "; "78"].
Proof.
  intros msg globalFingerprints. split; [reflexivity |]. split; [reflexivity |].
  eexists. split; [exact (proj2 (createMessageInfo_no_entry 9 msg globalFingerprints eq_refl)) |].
  reflexivity.
Defined.
